(** * QueueCTL: the job entity, the job store, the configuration, the
      worker's transitions and the commands of the command line, embedded
      from job.py, storage.py, config.py, worker.py and cli.py.

    Conventions of the embedding.
    - The [jobs] table is the list of its rows in rowid (insertion) order.
      Its columns are typed as the schema declares them: TEXT columns are
      strings, INTEGER columns are integers, the nullable
      [retry_after_time] is an [option].
    - Timestamps are what the program stores: the text produced by
      [datetime.isoformat()] for a UTC datetime. SQLite compares TEXT
      bytewise, which is [String.le] here.
    - The clock is an input: every operation that reads
      [datetime.now(timezone.utc)] takes the instant as a number of
      microseconds since 1970-01-01T00:00:00 UTC.
    - [math.pow] on an integer base and an integer exponent of at least 1
      is the integer power, which it is exactly below 2^53. A [datetime]
      ranges from year 1 to year 9999: an addition that leaves the range
      raises OverflowError, and so does, before it, a delay too large for
      binary64 or for [timedelta], which is too large for the sum as well.
    - INTEGER columns hold signed 64-bit values: binding a larger Python
      int to the INSERT raises OverflowError. The UPDATEs are given jobs
      read from rows, whose integers are 64-bit.
    - Store calls run one at a time and, that binding apart, do not fail:
      lock contention, console output and process scheduling are outside
      the embedding. *)

From Stdlib Require Import ZArith Ascii String Lia.
From stdpp Require Import base option list strings gmap sorting pretty.

Local Open Scope Z_scope.

(** ** Python values, dictionaries and exceptions *)

Inductive pyval : Type :=
| PNone
| PInt (n : Z)
| PStr (s : string).

Abbreviation dict := (gmap string pyval).

(** [SchemaError k] is not a Python exception: the record [Job.t] types its
    attributes as the table types its columns, and a dictionary entry [k]
    holding a value of another type has no image in it. *)
Inductive exn : Type :=
| KeyError (key : string)
| TypeError (msg : string)
| OverflowError (msg : string)
| SchemaError (key : string).

Inductive result (A : Type) : Type :=
| Ok (a : A)
| Raise (e : exn).
Arguments Ok {A} a.
Arguments Raise {A} e.

#[global] Instance result_bind : MBind result := fun A B k r =>
  match r with
  | Ok a => k a
  | Raise e => Raise e
  end.

(** [d[k]] *)
Definition getitem (d : dict) (k : string) : result pyval :=
  match d !! k with
  | Some v => Ok v
  | None => Raise (KeyError k)
  end.

Definition as_str (k : string) (v : pyval) : result string :=
  match v with PStr s => Ok s | _ => Raise (SchemaError k) end.

Definition as_int (k : string) (v : pyval) : result Z :=
  match v with PInt n => Ok n | _ => Raise (SchemaError k) end.

Definition as_opt_str (k : string) (v : pyval) : result (option string) :=
  match v with
  | PNone => Ok None
  | PStr s => Ok (Some s)
  | PInt _ => Raise (SchemaError k)
  end.

Definition of_opt_str (o : option string) : pyval :=
  match o with Some s => PStr s | None => PNone end.

(** ** datetime *)

(** An instant: microseconds since the epoch, UTC. *)
Definition datetime := Z.

(** [timedelta(seconds=s)] *)
Definition timedelta (seconds : Z) : Z := seconds * 1000000.

Definition digit (n : Z) : ascii := ascii_of_nat (48 + Z.to_nat (n mod 10)).

(** [%0wd] of a number of at most [w] digits *)
Fixpoint zfill (w : nat) (n : Z) : string :=
  match w with
  | O => ""
  | S w' => zfill w' (n / 10) +:+ String (digit n) ""
  end.

(** Proleptic Gregorian date of a day number counted from 1970-01-01. *)
Definition civil_from_days (days : Z) : Z * Z * Z :=
  let z := days + 719468 in
  let era := z / 146097 in
  let doe := z mod 146097 in
  let yoe := (doe - doe / 1460 + doe / 36524 - doe / 146096) / 365 in
  let doy := doe - (365 * yoe + yoe / 4 - yoe / 100) in
  let mp := (5 * doy + 2) / 153 in
  let d := doy - (153 * mp + 2) / 5 + 1 in
  let m := if mp <? 10 then mp + 3 else mp - 9 in
  let y := yoe + era * 400 + (if m <=? 2 then 1 else 0) in
  (y, m, d).

(** [dt.isoformat()] for a datetime with [tzinfo=timezone.utc]: the
    fraction is printed only when the microsecond is not zero. *)
Definition isoformat (dt : datetime) : string :=
  let us := dt mod 1000000 in
  let secs := dt / 1000000 in
  let sod := secs mod 86400 in
  let '(y, m, d) := civil_from_days (secs / 86400) in
  zfill 4 y +:+ "-" +:+ zfill 2 m +:+ "-" +:+ zfill 2 d +:+ "T" +:+
  zfill 2 (sod / 3600) +:+ ":" +:+ zfill 2 (sod / 60 mod 60) +:+ ":" +:+
  zfill 2 (sod mod 60) +:+
  (if us =? 0 then "" else "." +:+ zfill 6 us) +:+ "+00:00".

(** The instants a [datetime] holds: 0001-01-01T00:00:00 to
    9999-12-31T23:59:59.999999, in microseconds since the epoch. *)
Definition datetime_min : datetime := -62135596800000000.
Definition datetime_max : datetime := 253402300799999999.

(** [dt + td]: [None] is OverflowError, raised when the sum is not a
    [datetime]. *)
Definition datetime_add (dt : datetime) (td : Z) : option datetime :=
  if (datetime_min <=? dt + td) && (dt + td <=? datetime_max)
  then Some (dt + td)
  else None.

(** [math.pow(base, exponent)] on integers, for [1 <= exponent]: exact
    while the power is below 2^53 in magnitude. *)
Definition math_pow (base exponent : Z) : Z := base ^ exponent.

(** ** job.py *)

Module Job.

Record t : Type := mk {
  id : string;
  command : string;
  max_retries : Z;
  state : string;
  attempts : Z;
  created_at : string;
  updated_at : string;
  retry_after_time : option string
}.

Definition set_state (s : string) (j : t) : t :=
  mk (id j) (command j) (max_retries j) s (attempts j)
     (created_at j) (updated_at j) (retry_after_time j).

Definition set_attempts (n : Z) (j : t) : t :=
  mk (id j) (command j) (max_retries j) (state j) n
     (created_at j) (updated_at j) (retry_after_time j).

Definition set_updated_at (u : string) (j : t) : t :=
  mk (id j) (command j) (max_retries j) (state j) (attempts j)
     (created_at j) u (retry_after_time j).

Definition set_retry_after_time (r : option string) (j : t) : t :=
  mk (id j) (command j) (max_retries j) (state j) (attempts j)
     (created_at j) (updated_at j) r.

(** [kwargs.get(k, default)] read at the attribute's type *)
Definition get_str (kwargs : dict) (k : string) (default : string)
  : result string :=
  match kwargs !! k with
  | Some v => as_str k v
  | None => Ok default
  end.

Definition get_int (kwargs : dict) (k : string) (default : Z) : result Z :=
  match kwargs !! k with
  | Some v => as_int k v
  | None => Ok default
  end.

Definition get_opt_str (kwargs : dict) (k : string) : result (option string) :=
  match kwargs !! k with
  | Some v => as_opt_str k v
  | None => Ok None
  end.

(** The body of [__init__(self, id, command, max_retries=3, **kwargs)]
    once its parameters are bound. *)
Definition init (now : datetime) (id command : string) (max_retries : Z)
    (kwargs : dict) : result t :=
  state ← get_str kwargs "state" "pending";
  attempts ← get_int kwargs "attempts" 0;
  let now_iso := isoformat now in
  created_at ← get_str kwargs "created_at" now_iso;
  updated_at ← get_str kwargs "updated_at" now_iso;
  retry_after_time ← get_opt_str kwargs "retry_after_time";
  Ok (mk id command max_retries state attempts
         created_at updated_at retry_after_time).

(** The call [Job(id, command, **kw)]: the two positional arguments bind
    [id] and [command]; a keyword naming a parameter that is already
    bound is a TypeError; [max_retries] is taken from the keywords when
    present; what is left is [kwargs]. *)
Definition call (now : datetime) (id command : string) (kw : dict)
  : result t :=
  match kw !! "id", kw !! "command" with
  | Some _, _ =>
      Raise (TypeError "Job.__init__() got multiple values for argument 'id'")
  | None, Some _ =>
      Raise (TypeError "Job.__init__() got multiple values for argument 'command'")
  | None, None =>
      max_retries ← get_int kw "max_retries" 3;
      init now id command max_retries (delete "max_retries" kw)
  end.

(** [self.__dict__], in the order the attributes are assigned *)
Definition to_dict (j : t) : dict :=
  <["id" := PStr (id j)]>
  (<["command" := PStr (command j)]>
  (<["max_retries" := PInt (max_retries j)]>
  (<["state" := PStr (state j)]>
  (<["attempts" := PInt (attempts j)]>
  (<["created_at" := PStr (created_at j)]>
  (<["updated_at" := PStr (updated_at j)]>
  (<["retry_after_time" := of_opt_str (retry_after_time j)]> ∅))))))).

(** [cls(data['id'], data['command'], **data)] *)
Definition from_dict (now : datetime) (data : dict) : result t :=
  i ← getitem data "id";
  c ← getitem data "command";
  i ← as_str "id" i;
  c ← as_str "command" c;
  call now i c data.

End Job.

(** ** storage.py *)

Module Storage.

(** The [jobs] table: rows in rowid order. A row has the attributes of a
    job, typed by the schema. *)
Abbreviation table := (list Job.t).

(** [str(e)] *)
Definition exn_str (e : exn) : string :=
  match e with
  | KeyError k => "'" +:+ k +:+ "'"
  | TypeError msg => msg
  | OverflowError msg => msg
  | SchemaError k => k
  end.

(** [dict(row)] of a [sqlite3.Row] of the table, columns in schema order *)
Definition dict_of_row (row : Job.t) : dict :=
  <["id" := PStr (Job.id row)]>
  (<["command" := PStr (Job.command row)]>
  (<["state" := PStr (Job.state row)]>
  (<["attempts" := PInt (Job.attempts row)]>
  (<["max_retries" := PInt (Job.max_retries row)]>
  (<["created_at" := PStr (Job.created_at row)]>
  (<["updated_at" := PStr (Job.updated_at row)]>
  (<["retry_after_time" := of_opt_str (Job.retry_after_time row)]> ∅))))))).

(** [data.pop(k)] *)
Definition pop (k : string) (data : dict) : result (pyval * dict) :=
  v ← getitem data k;
  Ok (v, delete k data).

Definition row_to_job (now : datetime) (row : option Job.t)
  : result (option Job.t) :=
  match row with
  | None => Ok None
  | Some row =>
      let data := dict_of_row row in
      '(job_id, data) ← pop "id" data;
      '(command, data) ← pop "command" data;
      job_id ← as_str "id" job_id;
      command ← as_str "command" command;
      job ← Job.call now job_id command data;
      Ok (Some job)
  end.

(** The tuple of values bound to the INSERT's placeholders, read from
    [data] in the statement's order. *)
Definition insert_values (data : dict) : result Job.t :=
  id ← getitem data "id" ≫= as_str "id";
  command ← getitem data "command" ≫= as_str "command";
  state ← getitem data "state" ≫= as_str "state";
  attempts ← getitem data "attempts" ≫= as_int "attempts";
  max_retries ← getitem data "max_retries" ≫= as_int "max_retries";
  created_at ← getitem data "created_at" ≫= as_str "created_at";
  updated_at ← getitem data "updated_at" ≫= as_str "updated_at";
  retry_after_time ←
    getitem data "retry_after_time" ≫= as_opt_str "retry_after_time";
  Ok (Job.mk id command max_retries state attempts
             created_at updated_at retry_after_time).

(** What a Python int must be to be bound to a placeholder: SQLite's
    INTEGER is a signed 64-bit value. *)
Definition int64 (n : Z) : bool :=
  (-9223372036854775808 <=? n) && (n <=? 9223372036854775807).

(** Binding the tuple to the placeholders, which [execute] does before
    it runs the statement. *)
Definition bind_parameters (row : Job.t) : result Job.t :=
  if int64 (Job.attempts row) && int64 (Job.max_retries row)
  then Ok row
  else Raise (OverflowError
                "Python int too large to convert to SQLite INTEGER").

(** [INSERT OR IGNORE INTO jobs ...]: [id] is the primary key, a row
    whose id is already present is skipped. The second component is
    [cursor.rowcount]. *)
Definition insert_or_ignore (row : Job.t) (tbl : table) : table * Z :=
  if bool_decide (Job.id row ∈ Job.id <$> tbl)
  then (tbl, 0)
  else (tbl ++ [row], 1).

Definition enqueue_job (job : Job.t) (tbl : table)
  : table * (bool * string) :=
  let data := Job.to_dict job in
  match insert_values data ≫= bind_parameters with
  | Ok row =>
      let '(tbl', rowcount) := insert_or_ignore row tbl in
      if rowcount =? 0
      then (tbl', (false, "Job with ID " +:+ Job.id job +:+ " already exists."))
      else (tbl', (true, "Job " +:+ Job.id job +:+ " added to queue in '"
                           +:+ Job.state job +:+ "' state."))
  | Raise e =>
      (tbl, (false, "Database error during enqueue: " +:+ exn_str e))
  end.

(** [WHERE state = 'pending'
     AND (retry_after_time IS NULL OR retry_after_time <= ?)] *)
Definition ready (now_utc : string) (row : Job.t) : bool :=
  bool_decide (Job.state row = "pending") &&
  match Job.retry_after_time row with
  | None => true
  | Some t => String.leb t now_utc
  end.

(** [ORDER BY created_at ASC LIMIT 1]: among rows of equal [created_at]
    the one met first in rowid order is kept. *)
Fixpoint order_by_created_at_limit_1 (rows : list Job.t) : option Job.t :=
  match rows with
  | [] => None
  | row :: rows' =>
      match order_by_created_at_limit_1 rows' with
      | None => Some row
      | Some m =>
          if String.leb (Job.created_at row) (Job.created_at m)
          then Some row
          else Some m
      end
  end.

(** [UPDATE jobs SET ... WHERE id = ?] *)
Definition update_where_id (id : string) (set : Job.t -> Job.t)
    (tbl : table) : table :=
  (fun row => if bool_decide (Job.id row = id) then set row else row) <$> tbl.

(** The constructor run by [row_to_job] reads the clock for defaults that
    a row never needs; it is given the instant of [now_utc]. The two
    branches returning the table as it was are [if row:] being false and
    [except Exception: conn.rollback(); job = None]. *)
Definition pick_job_for_worker (now : datetime) (tbl : table)
  : table * option Job.t :=
  let now_utc := isoformat now in
  let row := order_by_created_at_limit_1 (filter (fun r => ready now_utc r) tbl) in
  match row with
  | Some _ =>
      match row_to_job now row with
      | Ok (Some job) =>
          let job := Job.set_state "processing" job in
          let job := Job.set_updated_at now_utc job in
          (update_where_id (Job.id job)
             (fun r => Job.set_updated_at (Job.updated_at job)
                         (Job.set_state (Job.state job) r)) tbl,
           Some job)
      | _ => (tbl, None)
      end
  | None => (tbl, None)
  end.

(** The two statements of [pick_job_for_worker] apart, as two connections
    may interleave them: sqlite3 opens a transaction only before a
    statement that writes, so the SELECT runs outside any, and the UPDATE
    names the row by its id alone. [select_job] is the SELECT with
    [fetchone()], [mark_processing] what follows it for the row found. *)
Definition select_job (now_utc : string) (tbl : table) : option Job.t :=
  order_by_created_at_limit_1 (filter (fun r => ready now_utc r) tbl).

Definition mark_processing (now : datetime) (row : Job.t) (tbl : table)
  : table * option Job.t :=
  let now_utc := isoformat now in
  match row_to_job now (Some row) with
  | Ok (Some job) =>
      let job := Job.set_state "processing" job in
      let job := Job.set_updated_at now_utc job in
      (update_where_id (Job.id job)
         (fun r => Job.set_updated_at (Job.updated_at job)
                     (Job.set_state (Job.state job) r)) tbl,
       Some job)
  | _ => (tbl, None)
  end.

(** Returns the table and the job object, whose [updated_at] the function
    assigns. *)
Definition update_job_state (now : datetime) (job : Job.t) (tbl : table)
  : table * Job.t :=
  let job := Job.set_updated_at (isoformat now) job in
  (update_where_id (Job.id job)
     (fun r => Job.set_retry_after_time (Job.retry_after_time job)
                 (Job.set_updated_at (Job.updated_at job)
                    (Job.set_attempts (Job.attempts job)
                       (Job.set_state (Job.state job) r)))) tbl,
   job).

(** [SELECT * FROM jobs WHERE id = ?] then [fetchone()] *)
Definition get_job_by_id (now : datetime) (job_id : string) (tbl : table)
  : result (option Job.t) :=
  row_to_job now (head (filter (fun r => Job.id r = job_id) tbl)).

(** [ORDER BY updated_at DESC]: SQLite's sorter returns rows of equal
    [updated_at] in rowid order. *)
Fixpoint insert_by_updated_at_desc (row : Job.t) (sorted : list Job.t)
  : list Job.t :=
  match sorted with
  | [] => [row]
  | r :: sorted' =>
      if String.leb (Job.updated_at r) (Job.updated_at row)
      then row :: r :: sorted'
      else r :: insert_by_updated_at_desc row sorted'
  end.

Definition order_by_updated_at_desc (rows : list Job.t) : list Job.t :=
  foldr insert_by_updated_at_desc [] rows.

(** The loop [for row in cursor.fetchall(): jobs.append(row_to_job(row))] *)
Fixpoint rows_to_jobs (now : datetime) (rows : list Job.t)
  : result (list (option Job.t)) :=
  match rows with
  | [] => Ok []
  | row :: rows' =>
      job ← row_to_job now (Some row);
      jobs ← rows_to_jobs now rows';
      Ok (job :: jobs)
  end.

(** [if state_filter:] holds for a string that is not empty. *)
Definition list_jobs (now : datetime) (state_filter : option string)
    (tbl : table) : result (list (option Job.t)) :=
  match state_filter with
  | Some state =>
      if bool_decide (state ≠ "")
      then rows_to_jobs now
             (order_by_updated_at_desc
                (filter (fun r => Job.state r = state) tbl))
      else rows_to_jobs now (order_by_updated_at_desc tbl)
  | None => rows_to_jobs now (order_by_updated_at_desc tbl)
  end.

(** [SELECT state, COUNT(id) FROM jobs GROUP BY state] read into a
    dictionary: one entry per state that some row has. *)
Definition get_job_state_counts (tbl : table) : gmap string Z :=
  foldr (fun row counts =>
           <[Job.state row := default 0 (counts !! Job.state row) + 1]> counts)
        ∅ tbl.

End Storage.

(** ** config.py *)

Module Config.

(** The [config] table: rows (key, value) in rowid order. *)
Abbreviation table := (list (string * string)).

(** [INSERT OR REPLACE INTO config (key, value)]: [key] is the primary
    key, the row that has it is deleted and the new row inserted. *)
Definition set_config (key value : string) (cfg : table) : table :=
  filter (fun row => row.1 ≠ key) cfg ++ [(key, value)].

(** [default] is [None] when the caller gives none. *)
Definition get_config (key : string) (default : option string) (cfg : table)
  : option string :=
  match head (filter (fun row => row.1 = key) cfg) with
  | Some row => Some row.2
  | None => default
  end.

(** [{row['key']: row['value'] for row in cursor.fetchall()}] *)
Definition get_all_config (cfg : table) : gmap string string :=
  foldl (fun d row => <[row.1 := row.2]> d) ∅ cfg.

End Config.

(** ** worker.py *)

Module Worker.

(** What [subprocess.run(job.command, shell=True, check=False,
    capture_output=True, text=True)] does: it returns a completed process
    with its return code, or it raises an [Exception]. It raises when
    the shell cannot be started ([None]), and also after the command has
    run and exited with a status, when the captured output is not text in
    the locale's encoding ([Some status], a UnicodeDecodeError). *)
Inductive run_outcome : Type :=
| CompletedProcess (returncode : Z)
| RunRaised (exit_status : option Z).

(** How a call of a method of the worker ends: it returns, or an
    OverflowError leaves it; the text of the exception is only printed. *)
Inductive completion : Type :=
| Returns
| Raises.

Section with_retry_base.

(** [self.retry_base], read once from the configuration *)
Variable retry_base : Z.

Definition handle_success (now : datetime) (job : Job.t)
    (tbl : Storage.table) : Storage.table * Job.t :=
  let job := Job.set_state "completed" job in
  let job := Job.set_retry_after_time None job in
  Storage.update_job_state now job tbl.

(** [now] is the clock read for [retry_time], [now_upd] the later one
    read by [update_job_state]. The result is the table, the job object
    as the call leaves it, and how the call ends. Lines 68 and 69 raise
    OverflowError exactly when [now] plus the delay is not a [datetime]:
    [now] being one, a delay that [math.pow] cannot hold or that
    [timedelta] rejects is too large for the sum as well. The exception
    leaves the object with [attempts] and [state] assigned and the table
    as it was, [update_job_state] not being reached. *)
Definition handle_failure (now now_upd : datetime) (job : Job.t)
    (tbl : Storage.table) : Storage.table * Job.t * completion :=
  let job := Job.set_attempts (Job.attempts job + 1) job in
  let assigned :=
    if Job.attempts job >=? Job.max_retries job then
      let job := Job.set_state "dead" job in
      inl (Job.set_retry_after_time None job)
    else
      let job := Job.set_state "pending" job in
      let delay := math_pow retry_base (Job.attempts job) in
      match datetime_add now (timedelta delay) with
      | Some retry_time =>
          inl (Job.set_retry_after_time (Some (isoformat retry_time)) job)
      | None => inr job
      end in
  match assigned with
  | inl job => (Storage.update_job_state now_upd job tbl, Returns)
  | inr job => (tbl, job, Raises)
  end.

(** Both handlers are called inside [try]: an exception of
    [handle_failure] on a non-zero return code is caught by [except
    Exception], which calls [handle_failure] again on the same object,
    reading the clock again ([now_retry]); an exception of the call made
    by the [except] clause itself leaves [process_job]. *)
Definition process_job (now now_retry now_upd : datetime)
    (outcome : run_outcome) (job : Job.t) (tbl : Storage.table)
  : Storage.table * Job.t * completion :=
  match outcome with
  | CompletedProcess returncode =>
      if returncode =? 0
      then (handle_success now_upd job tbl, Returns)
      else
        match handle_failure now now_upd job tbl with
        | (tbl', job', Raises) => handle_failure now_retry now_upd job' tbl'
        | returned => returned
        end
  | RunRaised _ => handle_failure now now_upd job tbl
  end.

(** What one pass of the loop of [run] reads from outside: whether the
    stop event is set, the clock at the claim, how the command ends, and
    the clocks of the handlers. *)
Record tick : Type := mk_tick {
  tick_stop : bool;
  tick_now : datetime;
  tick_outcome : run_outcome;
  tick_now_fail : datetime;
  tick_now_retry : datetime;
  tick_now_upd : datetime
}.

(** Where [run] is after the passes observed: still in its loop, returned
    on the stop event, or left by the OverflowError of [process_job]. *)
Inductive loop : Type :=
| Looping
| Stopped
| Crashed.

(** [run] along the passes observed. A pass that claims nothing sleeps. *)
Fixpoint run (ticks : list tick) (tbl : Storage.table)
  : Storage.table * loop :=
  match ticks with
  | [] => (tbl, Looping)
  | t :: ticks' =>
      if tick_stop t then (tbl, Stopped)
      else
        match Storage.pick_job_for_worker (tick_now t) tbl with
        | (tbl', Some job) =>
            match process_job (tick_now_fail t) (tick_now_retry t)
                    (tick_now_upd t) (tick_outcome t) job tbl' with
            | (tbl'', _, Returns) => run ticks' tbl''
            | (tbl'', _, Raises) => (tbl'', Crashed)
            end
        | (tbl', None) => run ticks' tbl'
        end
  end.

End with_retry_base.

Section with_int.

(** Python's [int] on a string: the integer, or [None] for ValueError. *)
Variable int : string -> option Z.

(** [self.retry_base] as [__init__] computes it; [None] when [int]
    raises. *)
Definition init (cfg : Config.table) : option Z :=
  Config.get_config "retry_base" (Some "2") cfg ≫= int.

End with_int.

End Worker.

(** ** cli.py *)

Module Cli.

(** [enqueue] once the JSON text is parsed and found to hold [id] and
    [command]: [max_retries] is [data.get('max_retries', 3)]. The
    function returns the table and the line echoed. *)
Definition enqueue (now : datetime) (id command : string)
    (max_retries : option Z) (tbl : Storage.table)
  : result (Storage.table * string) :=
  job ← Job.init now id command (default 3 max_retries) ∅;
  let '(tbl', (success, message)) := Storage.enqueue_job job tbl in
  if success
  then Ok (tbl', message)
  else Ok (tbl', "Error: " +:+ message).

(** [dlq retry JOB_ID]; [now] is the clock of the lookup's constructor,
    [now_upd] that of [update_job_state]. *)
Definition retry (now now_upd : datetime) (job_id : string)
    (tbl : Storage.table) : result (Storage.table * string) :=
  job ← Storage.get_job_by_id now job_id tbl;
  match job with
  | None => Ok (tbl, "Error: Job ID '" +:+ job_id +:+ "' not found.")
  | Some job =>
      if bool_decide (Job.state job ≠ "dead") then
        Ok (tbl, "Error: Job '" +:+ job_id +:+ "' is in state '"
                   +:+ Job.state job +:+ "', not 'dead'.")
      else
        let job := Job.set_state "pending" job in
        let job := Job.set_attempts 0 job in
        let job := Job.set_retry_after_time None job in
        let '(tbl', _) := Storage.update_job_state now_upd job tbl in
        Ok (tbl', "Job " +:+ job_id +:+ " moved from DLQ to 'pending' queue for retry.")
  end.

(** [enqueue] on a parsed JSON object read at the types [Job] annotates:
    [id] and [command] are strings where the object has them and
    [max_retries] an integer where it has it; no other key is read. The
    check of the two required keys raises the ValueError that is echoed
    as an error. *)
Definition enqueue_data (now : datetime) (id command : option string)
    (max_retries : option Z) (tbl : Storage.table)
  : result (Storage.table * string) :=
  match id, command with
  | Some id, Some command => enqueue now id command max_retries tbl
  | _, _ => Ok (tbl, "Error: Job data must contain 'id' and 'command'.")
  end.

(** [str.capitalize] on ASCII text, which the state names are. *)
Definition to_upper (c : ascii) : ascii :=
  let n := nat_of_ascii c in
  if ((97 <=? n) && (n <=? 122))%nat then ascii_of_nat (n - 32) else c.

Definition to_lower (c : ascii) : ascii :=
  let n := nat_of_ascii c in
  if ((65 <=? n) && (n <=? 90))%nat then ascii_of_nat (n + 32) else c.

Fixpoint map_string (f : ascii -> ascii) (s : string) : string :=
  match s with
  | EmptyString => EmptyString
  | String c s' => String (f c) (map_string f s')
  end.

Definition capitalize (s : string) : string :=
  match s with
  | EmptyString => EmptyString
  | String c s' => String (to_upper c) (map_string to_lower s')
  end.

(** The lines [status] echoes. *)
Definition status (tbl : Storage.table) : list string :=
  let counts := Storage.get_job_state_counts tbl in
  (String (ascii_of_nat 10) "ðŸ“Š Job State Summary:")
  :: ((fun state =>
         "- " +:+ capitalize state +:+ ": " +:+
         pretty (default 0 (counts !! state)))
      <$> ["pending"; "processing"; "completed"; "failed"; "dead"]).

Section with_builtins.

(** Python's [str.lower] and [int] on a string ([None] for ValueError). *)
Variable lower : string -> string.
Variable int : string -> option Z.

(** [config set KEY VALUE]: the table and the line echoed. *)
Definition config_set (key value : string) (cfg : Config.table)
  : Config.table * string :=
  let key := lower key in
  let set := (Config.set_config key value cfg,
              "Configuration set: " +:+ key +:+ " = " +:+ value) in
  if bool_decide (key ∈ ["max_retries"; "retry_base"]) then
    match int value with
    | Some _ => set
    | None => (cfg, "Error: Value for '" +:+ key +:+ "' must be an integer.")
    end
  else set.

End with_builtins.

End Cli.

(** ** The queue as a transition system

    The public operations, each run to its end before the next starts.
    [held] is the list of job objects that workers have claimed and whose
    command is still running: [run] passes the object returned by
    [pick_job_for_worker] to [process_job]. A worker whose [process_job]
    is left by an exception holds the job no longer. *)

Module Queue.

Record sys : Type := mk {
  store : Storage.table;
  held : list Job.t
}.

Definition init : sys := mk [] [].

Inductive event : Type :=
| Enqueue (id : string)
| Claim (id : string)
| Process (id : string) (outcome : Worker.run_outcome)
| Retry (job_id : string).

Section with_retry_base.

Variable retry_base : Z.

Inductive step : sys -> event -> sys -> Prop :=
| step_enqueue s now id command max_retries tbl' echo :
    1 <= default 3 max_retries ->
    Cli.enqueue now id command max_retries (store s) = Ok (tbl', echo) ->
    step s (Enqueue id) (mk tbl' (held s))
| step_claim s now tbl' job :
    Storage.pick_job_for_worker now (store s) = (tbl', Some job) ->
    step s (Claim (Job.id job)) (mk tbl' (job :: held s))
| step_process s now now_retry now_upd outcome job h1 h2 tbl' job' ended :
    held s = h1 ++ job :: h2 ->
    Worker.process_job retry_base now now_retry now_upd outcome job (store s)
      = (tbl', job', ended) ->
    step s (Process (Job.id job) outcome) (mk tbl' (h1 ++ h2))
| step_retry s now now_upd job_id tbl' echo :
    Cli.retry now now_upd job_id (store s) = Ok (tbl', echo) ->
    step s (Retry job_id) (mk tbl' (held s)).

Inductive reachable : sys -> Prop :=
| reachable_init : reachable init
| reachable_step s e s' : reachable s -> step s e s' -> reachable s'.

End with_retry_base.

End Queue.

(** ** Vocabulary of the statements *)

(** A row that [claim_next] may take at [now_utc]. *)
Definition eligible (now_utc : string) (r : Job.t) : Prop :=
  Job.state r = "pending" ∧
  (Job.retry_after_time r = None ∨
   ∃ t, Job.retry_after_time r = Some t ∧ (t ≤ now_utc)%string).

(** The row [r] once claimed at [now_utc]. *)
Definition claimed (now_utc : string) (r : Job.t) : Job.t :=
  Job.mk (Job.id r) (Job.command r) (Job.max_retries r) "processing"
         (Job.attempts r) (Job.created_at r) now_utc (Job.retry_after_time r).

(** The run is a failure: [subprocess.run] did not return with return
    code 0. *)
Definition is_failure (o : Worker.run_outcome) : Prop :=
  o ≠ Worker.CompletedProcess 0.

(** Distinct ids, as the primary key makes them. *)
Definition distinct_ids (tbl : Storage.table) : Prop :=
  NoDup (Job.id <$> tbl).

(** What every row of a table reached by the public operations
    satisfies. *)
Definition row_ok (r : Job.t) : Prop :=
  1 <= Job.max_retries r ∧
  0 <= Job.attempts r <= Job.max_retries r ∧
  (Job.state r = "dead" ↔ Job.max_retries r <= Job.attempts r) ∧
  (Job.retry_after_time r ≠ None →
   (Job.state r = "pending" ∨ Job.state r = "processing") ∧
   1 <= Job.attempts r).

(** What a job object held by a worker satisfies, against the table. *)
Definition held_ok (tbl : Storage.table) (job : Job.t) : Prop :=
  Job.state job = "processing" ∧
  0 <= Job.attempts job < Job.max_retries job ∧
  (∃ r, r ∈ tbl ∧ Job.id r = Job.id job) ∧
  (∀ r, r ∈ tbl → Job.id r = Job.id job →
        Job.max_retries r = Job.max_retries job).

Definition inv (s : Queue.sys) : Prop :=
  distinct_ids (Queue.store s) ∧
  Forall row_ok (Queue.store s) ∧
  Forall (held_ok (Queue.store s)) (Queue.held s).

(** The columns no operation writes after the insertion. *)
Definition key (r : Job.t) : string * Z := (Job.id r, Job.max_retries r).

(** Sample data: 2024-01-01T00:00:00 UTC and two jobs enqueued then. *)
Definition t0 : datetime := 1704067200000000.

Definition job_a : Job.t :=
  Job.mk "a" "false" 3 "pending" 0
         "2024-01-01T00:00:00+00:00" "2024-01-01T00:00:00+00:00" None.

Definition job_b : Job.t :=
  Job.mk "b" "true" 3 "pending" 0
         "2024-01-01T00:00:00+00:00" "2024-01-01T00:00:00+00:00" None.

(** [job_a] after its third failure. *)
Definition job_a_dead : Job.t :=
  Job.mk "a" "false" 3 "dead" 3
         "2024-01-01T00:00:00+00:00" "2024-01-01T00:00:14+00:00" None.

(** [job_a] claimed one second after [t0]. *)
Definition job_a_claimed : Job.t :=
  Job.mk "a" "false" 3 "processing" 0
         "2024-01-01T00:00:00+00:00" "2024-01-01T00:00:01+00:00" None.

(** [job_a] after a first failure two seconds after [t0], base 2. *)
Definition job_a_retrying : Job.t :=
  Job.mk "a" "false" 3 "pending" 1
         "2024-01-01T00:00:00+00:00" "2024-01-01T00:00:02+00:00"
         (Some "2024-01-01T00:00:04+00:00").

(** [job_a_retrying] claimed again at the instant its delay ends. *)
Definition job_a_reclaimed : Job.t :=
  Job.mk "a" "false" 3 "processing" 1
         "2024-01-01T00:00:00+00:00" "2024-01-01T00:00:04+00:00"
         (Some "2024-01-01T00:00:04+00:00").

Definition sys_retrying : Queue.sys := Queue.mk [job_a_retrying] [].

(** A job allowed one attempt, claimed one second after [t0] and dead
    after its run failed a second later. *)
Definition job_c : Job.t :=
  Job.mk "c" "exit 1" 1 "pending" 0
         "2024-01-01T00:00:00+00:00" "2024-01-01T00:00:00+00:00" None.

Definition job_c_claimed : Job.t :=
  Job.mk "c" "exit 1" 1 "processing" 0
         "2024-01-01T00:00:00+00:00" "2024-01-01T00:00:01+00:00" None.

Definition job_c_dead : Job.t :=
  Job.mk "c" "exit 1" 1 "dead" 1
         "2024-01-01T00:00:00+00:00" "2024-01-01T00:00:02+00:00" None.

Definition sys_dead : Queue.sys := Queue.mk [job_c_dead] [].

Definition sys_reclaimed : Queue.sys :=
  Queue.mk [job_a_reclaimed] [job_a_reclaimed].

(** [job_b] with a [max_retries] one beyond the 64-bit integers. *)
Definition job_b_huge : Job.t :=
  Job.mk "b" "true" 9223372036854775808 "pending" 0
         "2024-01-01T00:00:00+00:00" "2024-01-01T00:00:00+00:00" None.

(** The integers of a job fit the INTEGER columns. *)
Definition fits_integer (job : Job.t) : Prop :=
  Storage.int64 (Job.attempts job) ∧ Storage.int64 (Job.max_retries job).

(** The job object [job] after [k] increments of its attempts by
    [handle_failure], in state [state] with [retry_after_time] [r]. *)
Definition failed (k : Z) (state : string) (r : option string)
    (job : Job.t) : Job.t :=
  Job.mk (Job.id job) (Job.command job) (Job.max_retries job) state
         (Job.attempts job + k) (Job.created_at job) (Job.updated_at job) r.

(** The row [r] once [update_job_state] has written the job object [job]
    to it at [now_utc]. *)
Definition written (now_utc : string) (job r : Job.t) : Job.t :=
  Job.mk (Job.id r) (Job.command r) (Job.max_retries r) (Job.state job)
         (Job.attempts job) (Job.created_at r) now_utc
         (Job.retry_after_time job).


(** A job allowed five attempts, claimed again after a first failure
    with base 1000000, and the instant one second after that claim. *)
Definition job_e_claimed : Job.t :=
  Job.mk "e" "false" 5 "processing" 1
         "2024-01-01T00:00:00+00:00" "2024-01-12T13:46:42+00:00"
         (Some "2024-01-12T13:46:42+00:00").


(** A job allowed two attempts, claimed one second after [t0]. *)
Definition job_d_claimed : Job.t :=
  Job.mk "d" "false" 2 "processing" 0
         "2024-01-01T00:00:00+00:00" "2024-01-01T00:00:01+00:00" None.

(** The row [r] once requeued at [now_utc]. *)
Definition requeued (now_utc : string) (r : Job.t) : Job.t :=
  Job.mk (Job.id r) (Job.command r) (Job.max_retries r) "pending" 0
         (Job.created_at r) now_utc None.

(** ** Vocabulary of the further properties *)

(** The number of rows in state [state]. *)
Definition count_state (state : string) (tbl : Storage.table) : Z :=
  Z.of_nat (length (filter (fun r => Job.state r = state) tbl)).

(** [updated_at] does not increase along the list. *)
Definition newest_first (jobs : list Job.t) : Prop :=
  StronglySorted
    (fun a b => (Job.updated_at b ≤ Job.updated_at a)%string) jobs.

(** Stand-ins for [str.lower] and [int] on ASCII text and plain decimal
    numerals, to run the statements that take the two as parameters. *)
Definition ascii_lower (s : string) : string :=
  Cli.map_string Cli.to_lower s.

Fixpoint decimal (s : string) (acc : Z) : option Z :=
  match s with
  | EmptyString => Some acc
  | String c s' =>
      let n := nat_of_ascii c in
      if ((48 <=? n) && (n <=? 57))%nat
      then decimal s' (10 * acc + Z.of_nat (n - 48))
      else None
  end.

Definition decimal_int (s : string) : option Z :=
  match s with
  | EmptyString => None
  | _ => decimal s 0
  end.

(** The configuration after a sequence of [config set] commands. *)
Definition config_after (lower : string -> string) (int : string -> option Z)
    (commands : list (string * string)) : Config.table :=
  foldl (fun cfg kv => (Cli.config_set lower int kv.1 kv.2 cfg).1) [] commands.

(** The states the operations write. *)
Definition known_states : list string :=
  ["pending"; "processing"; "completed"; "dead"].

(** What the job objects held by workers satisfy beyond [held_ok]: no two
    of one id, each equal to its row; and the rows are in known states. *)
Definition inv_held (s : Queue.sys) : Prop :=
  NoDup (Job.id <$> Queue.held s) ∧
  Forall (fun job => job ∈ Queue.store s) (Queue.held s) ∧
  Forall (fun r => Job.state r ∈ known_states) (Queue.store s).

(** [s'] is reached from [s] by operations run one after the other. *)
Definition later (retry_base : Z) (s s' : Queue.sys) : Prop :=
  rtc (fun a b => ∃ e, Queue.step retry_base a e b) s s'.

(** ** Vocabulary of the order of the timestamps *)

(** The instants a [datetime] holds. *)
Definition representable (dt : datetime) : Prop :=
  datetime_min <= dt <= datetime_max.

(** Fields of fixed width, each followed by its separator, then [rest]:
    the shape of the text of [isoformat]. *)
Fixpoint render (fields : list (nat * Z * string)) (rest : string) : string :=
  match fields with
  | [] => rest
  | (w, x, sep) :: fields' => zfill w x +:+ sep +:+ render fields' rest
  end.

Fixpoint lex_compare (xs ys : list Z) : comparison :=
  match xs, ys with
  | x :: xs', y :: ys' =>
      match x ?= y with
      | Eq => lex_compare xs' ys'
      | c => c
      end
  | _, _ => Eq
  end.

Definition date_time_fields (secs : Z) : list (nat * Z * string) :=
  let sod := secs mod 86400 in
  let '(y, m, d) := civil_from_days (secs / 86400) in
  [(4%nat, y, "-"); (2%nat, m, "-"); (2%nat, d, "T");
   (2%nat, sod / 3600, ":"); (2%nat, sod / 60 mod 60, ":");
   (2%nat, sod mod 60, "")].

Definition fraction (us : Z) : string :=
  (if us =? 0 then "" else "." +:+ zfill 6 us) +:+ "+00:00".

(** * Checks of the embedding on concrete values *)

Example isoformat_epoch : isoformat 0 = "1970-01-01T00:00:00+00:00".
Proof. vm_compute. reflexivity. Qed.

Example isoformat_eve :
  isoformat (t0 - 1) = "2023-12-31T23:59:59.999999+00:00".
Proof. vm_compute. reflexivity. Qed.

Example isoformat_micro :
  isoformat 1700000000000001 = "2023-11-14T22:13:20.000001+00:00".
Proof. vm_compute. reflexivity. Qed.

Example isoformat_leap :
  isoformat 1709251199500000 = "2024-02-29T23:59:59.500000+00:00".
Proof. vm_compute. reflexivity. Qed.

(** * Lemmas on the store *)

Lemma insert_values_to_dict (j : Job.t) :
  Storage.insert_values (Job.to_dict j) = Ok j.
Proof. destruct j as [i c m s a ca ua [r|]]; reflexivity. Qed.

Lemma row_to_job_Some (now : datetime) (row : Job.t) :
  Storage.row_to_job now (Some row) = Ok (Some row).
Proof. destruct row as [i c m s a ca ua [r|]]; reflexivity. Qed.

Lemma row_to_job_ok (now : datetime) (row : option Job.t) :
  Storage.row_to_job now row = Ok row.
Proof. destruct row; [apply row_to_job_Some | reflexivity]. Qed.

Section store_lemmas.

Implicit Types (tbl : Storage.table) (r row job : Job.t).

Lemma ready_eligible now_utc r :
  Storage.ready now_utc r ↔ eligible now_utc r.
Proof.
  unfold Storage.ready, eligible.
  rewrite andb_True, bool_decide_spec.
  destruct (Job.retry_after_time r) as [t|]; split.
  - intros [? ?]. split; [done|]. right. by exists t.
  - intros [? [?|(t' & [= <-] & ?)]]; done.
  - intros [? _]. split; [done|]. by left.
  - by intros [? _].
Qed.

Lemma order_by_created_at_None (rows : list Job.t) :
  Storage.order_by_created_at_limit_1 rows = None ↔ rows = [].
Proof.
  destruct rows as [|r rows]; simpl; [done|].
  destruct (Storage.order_by_created_at_limit_1 rows); [|done].
  by destruct (String.leb _ _).
Qed.

Lemma order_by_created_at_Some (rows : list Job.t) m :
  Storage.order_by_created_at_limit_1 rows = Some m →
  m ∈ rows ∧ ∀ r, r ∈ rows → (Job.created_at m ≤ Job.created_at r)%string.
Proof.
  revert m. induction rows as [|r0 rows IH]; intros m; simpl; [done|].
  destruct (Storage.order_by_created_at_limit_1 rows) as [m'|] eqn:E.
  - destruct (IH m' eq_refl) as [Hin Hmin].
    destruct (String.leb (Job.created_at r0) (Job.created_at m')) eqn:Hle;
      intros [= <-].
    + split; [left|]. intros r [->|Hr]%elem_of_cons; [done|].
      transitivity (Job.created_at m'); [|by apply Hmin].
      unfold String.le. by rewrite Hle.
    + split; [by right|]. intros r [->|Hr]%elem_of_cons; [|by apply Hmin].
      destruct (total String.le (Job.created_at m') (Job.created_at r0))
        as [?|Hc]; [done|].
      unfold String.le in Hc. by rewrite Hle in Hc.
  - intros [= <-]. apply order_by_created_at_None in E as ->.
    split; [left|]. by intros r ->%list_elem_of_singleton.
Qed.

Lemma update_where_id_lookup id set tbl (i : nat) :
  Storage.update_where_id id set tbl !! i =
  (λ r, if bool_decide (Job.id r = id) then set r else r) <$> tbl !! i.
Proof. unfold Storage.update_where_id. apply list_lookup_fmap. Qed.

Lemma update_where_id_elem id set tbl r' :
  r' ∈ Storage.update_where_id id set tbl ↔
  ∃ r, r ∈ tbl ∧ r' = if bool_decide (Job.id r = id) then set r else r.
Proof.
  unfold Storage.update_where_id. rewrite list_elem_of_fmap.
  split; intros (r & ? & ?); by exists r.
Qed.

Lemma update_where_id_ids id set tbl :
  (∀ r, Job.id (set r) = Job.id r) →
  Job.id <$> Storage.update_where_id id set tbl = Job.id <$> tbl.
Proof.
  intros Hid. unfold Storage.update_where_id. rewrite <- list_fmap_compose.
  apply list_fmap_ext. intros _ r _. simpl. by case_bool_decide.
Qed.

Lemma update_where_id_absent id set tbl :
  id ∉ Job.id <$> tbl → Storage.update_where_id id set tbl = tbl.
Proof.
  intros Hid. unfold Storage.update_where_id.
  rewrite <- (list_fmap_id tbl) at 2. apply list_fmap_ext.
  intros i r Hr. simpl. case_bool_decide as E; [|done].
  exfalso. apply Hid. apply list_elem_of_fmap. exists r.
  split; [done|]. by eapply list_elem_of_lookup_2.
Qed.

(** What [pick_job_for_worker] computes, with the row it selected. *)
Lemma pick_job_for_worker_eq now tbl :
  Storage.pick_job_for_worker now tbl =
  match Storage.order_by_created_at_limit_1
          (filter (λ r, Storage.ready (isoformat now) r) tbl) with
  | Some row =>
      (Storage.update_where_id (Job.id row)
         (λ r, Job.set_updated_at (isoformat now)
                 (Job.set_state "processing" r)) tbl,
       Some (claimed (isoformat now) row))
  | None => (tbl, None)
  end.
Proof.
  unfold Storage.pick_job_for_worker.
  destruct (Storage.order_by_created_at_limit_1 _) as [row|]; [|done].
  by rewrite row_to_job_Some.
Qed.

End store_lemmas.

(** * The claim protocol *)

(** C1. At every table and instant, [pick_job_for_worker] returns a job
    exactly when the table holds an eligible row (state pending, and
    [retry_after_time] NULL or at most the text of now); the row it takes
    is eligible and no eligible row has an earlier [created_at]; the job
    returned is that row as claimed, so its [retry_after_time] is never
    after now; the rows of its id are processing afterwards and every
    other row is as before. A pending row whose [retry_after_time] equals
    now makes the call return a job. When no row is eligible the table is
    returned as it was; the result is an option, no error is raised. *)
Theorem pick_job_for_worker_earliest_eligible
    (now : datetime) (tbl : Storage.table) :
  let now_utc := isoformat now in
  let '(tbl', picked) := Storage.pick_job_for_worker now tbl in
  (is_Some picked ↔ ∃ r, r ∈ tbl ∧ eligible now_utc r) ∧
  (∀ r, r ∈ tbl → Job.state r = "pending" →
        Job.retry_after_time r = Some now_utc → is_Some picked) ∧
  match picked with
  | Some job =>
      (∃ row, row ∈ tbl ∧ eligible now_utc row ∧
         (∀ r, r ∈ tbl → eligible now_utc r →
               (Job.created_at row ≤ Job.created_at r)%string) ∧
         job = claimed now_utc row) ∧
      (∀ t, Job.retry_after_time job = Some t → (t ≤ now_utc)%string) ∧
      (∃ r', r' ∈ tbl' ∧ Job.id r' = Job.id job) ∧
      (∀ r', r' ∈ tbl' → Job.id r' = Job.id job →
             Job.state r' = "processing") ∧
      length tbl' = length tbl ∧
      (∀ (i : nat) r, tbl !! i = Some r →
         tbl' !! i = Some (if decide (Job.id r = Job.id job)
                           then claimed now_utc r else r))
  | None => tbl' = tbl
  end.
Proof.
  intros now_utc. rewrite pick_job_for_worker_eq. fold now_utc.
  destruct (Storage.order_by_created_at_limit_1 _) as [row|] eqn:E.
  - apply order_by_created_at_Some in E as [Hin Hmin].
    apply list_elem_of_filter in Hin as [Hready Hin].
    apply ready_eligible in Hready.
    split; [|split; [|split; [|split; [|split; [|split; [|split]]]]]].
    + split; [by exists row|by eexists].
    + by eexists.
    + exists row. split; [done|]. split; [done|]. split; [|done].
      intros r Hr Hel. apply Hmin. apply list_elem_of_filter.
      split; [by apply ready_eligible|done].
    + simpl. intros t Ht. destruct Hready as [_ [Hn|(t' & Ht' & Hle)]];
        congruence.
    + exists (claimed now_utc row). split; [|done].
      apply update_where_id_elem. exists row. split; [done|].
      by rewrite bool_decide_eq_true_2.
    + intros r' (r & Hr & ->)%update_where_id_elem Hid.
      case_bool_decide; [done|]. simpl in Hid. congruence.
    + unfold Storage.update_where_id. by rewrite length_fmap.
    + intros i r Hr. rewrite update_where_id_lookup, Hr. simpl.
      f_equal. case_bool_decide; case_decide; done.
  - apply order_by_created_at_None in E.
    assert (∀ r, r ∈ tbl → ¬ eligible now_utc r) as Hnone.
    { intros r Hr Hel%ready_eligible.
      assert (r ∈ filter (λ r, Storage.ready now_utc r) tbl) as Hf
        by (by apply list_elem_of_filter).
      rewrite E in Hf. by apply not_elem_of_nil in Hf. }
    split; [|split; [|done]].
    + split; [by intros [? ?]|]. intros (r & Hr & Hel). by destruct (Hnone r).
    + intros r Hr Hst Hret. destruct (Hnone r Hr).
      split; [done|]. right. by exists now_utc.
Qed.

(** * Writes to the store *)

(** C8. [update_job_state] keeps the number and order of the rows; a row
    whose id is the job's gets the job's [state], [attempts] and
    [retry_after_time] and the text of now as [updated_at], and keeps its
    [id], [command], [max_retries] and [created_at]; every other row is
    unchanged. *)
Theorem update_job_state_frame
    (now : datetime) (job : Job.t) (tbl : Storage.table) :
  let '(tbl', job') := Storage.update_job_state now job tbl in
  job' = Job.set_updated_at (isoformat now) job ∧
  length tbl' = length tbl ∧
  ∀ (i : nat) r, tbl !! i = Some r →
    ∃ r', tbl' !! i = Some r' ∧
      Job.id r' = Job.id r ∧ Job.command r' = Job.command r ∧
      Job.max_retries r' = Job.max_retries r ∧
      Job.created_at r' = Job.created_at r ∧
      if decide (Job.id r = Job.id job) then
        Job.state r' = Job.state job ∧ Job.attempts r' = Job.attempts job ∧
        Job.retry_after_time r' = Job.retry_after_time job ∧
        Job.updated_at r' = isoformat now
      else r' = r.
Proof.
  unfold Storage.update_job_state. split; [done|]. split.
  - unfold Storage.update_where_id. by rewrite length_fmap.
  - intros i r Hr. rewrite update_where_id_lookup, Hr. simpl.
    eexists. split; [done|]. simpl.
    case_bool_decide; case_decide; done.
Qed.

(** C9. [update_job_state] for a job whose id no row has returns the
    table as it was; it returns normally (the function is total), having
    only assigned [updated_at] on the job object. *)
Theorem update_job_state_unknown_id
    (now : datetime) (job : Job.t) (tbl : Storage.table) :
  Job.id job ∉ Job.id <$> tbl →
  Storage.update_job_state now job tbl =
  (tbl, Job.set_updated_at (isoformat now) job).
Proof.
  intros Hid. unfold Storage.update_job_state. f_equal.
  by apply update_where_id_absent.
Qed.

Lemma update_job_state_unknown_id_witness :
(Job.id job_b ∉ Job.id <$> [job_a]) ∧
  Storage.update_job_state t0 job_b [job_a] =
  ([job_a], Job.set_updated_at (isoformat t0) job_b).
Proof.
  assert (Job.id job_b ∉ Job.id <$> [job_a]) as H.
  { intros H%list_elem_of_singleton. discriminate H. }
  split; [exact H|]. exact (update_job_state_unknown_id t0 job_b [job_a] H).
Defined.

Lemma fits_integer_spec (job : Job.t) :
  fits_integer job ↔
  Storage.int64 (Job.attempts job) && Storage.int64 (Job.max_retries job)
  = true.
Proof.
  unfold fits_integer. rewrite andb_true_iff.
  split; intros [H1 H2]; split;
    first [by apply Is_true_true_1 | by apply Is_true_true_2].
Qed.

(** What [enqueue_job] computes once the dictionary is read back. *)
Lemma enqueue_job_eq (job : Job.t) (tbl : Storage.table) :
  Storage.enqueue_job job tbl =
  if Storage.int64 (Job.attempts job) && Storage.int64 (Job.max_retries job)
  then
    if bool_decide (Job.id job ∈ Job.id <$> tbl)
    then (tbl, (false, "Job with ID " +:+ Job.id job +:+ " already exists."))
    else (tbl ++ [job],
          (true, "Job " +:+ Job.id job +:+ " added to queue in '"
                   +:+ Job.state job +:+ "' state."))
  else (tbl, (false, "Database error during enqueue: " +:+
                     "Python int too large to convert to SQLite INTEGER")).
Proof.
  unfold Storage.enqueue_job, Storage.insert_or_ignore.
  rewrite insert_values_to_dict.
  change (Ok job ≫= Storage.bind_parameters)
    with (Storage.bind_parameters job).
  unfold Storage.bind_parameters.
  destruct (Storage.int64 (Job.attempts job) &&
            Storage.int64 (Job.max_retries job)); [|reflexivity].
  by case_bool_decide.
Qed.

(** C5, as stated, fails for a fresh id: a job whose [max_retries] is
    2^63 is not persisted, [enqueue_job] returns [False] with the text of
    the OverflowError that the binding raised. *)
Lemma enqueue_job_fresh_id_not_persisted :
  (Job.id job_b_huge ∉ Job.id <$> [job_a]) ∧
  Storage.enqueue_job job_b_huge [job_a] =
  ([job_a],
   (false, "Database error during enqueue: Python int too large to convert to SQLite INTEGER")).
Proof.
  split; [|vm_compute; reflexivity].
  intros H%list_elem_of_singleton. discriminate H.
Qed.

(** C5, amended. [enqueue_job] of a job whose id a row already has
    returns [False] with a reason and the table as it was, so the original
    row and every other row are unchanged. For a fresh id it appends the
    job as a row and returns [True] when the job's [attempts] and
    [max_retries] are 64-bit integers; when they are not, whatever the id,
    it returns [False] with the database error and the table as it was. *)
Theorem enqueue_job_rejects_existing_id (job : Job.t) (tbl : Storage.table) :
  (Job.id job ∈ Job.id <$> tbl →
   ∃ message,
     Storage.enqueue_job job tbl = (tbl, (false, message)) ∧
     (fits_integer job →
      message = "Job with ID " +:+ Job.id job +:+ " already exists.")) ∧
  (Job.id job ∉ Job.id <$> tbl → fits_integer job →
   Storage.enqueue_job job tbl =
   (tbl ++ [job],
    (true, "Job " +:+ Job.id job +:+ " added to queue in '"
             +:+ Job.state job +:+ "' state."))) ∧
  (¬ fits_integer job →
   Storage.enqueue_job job tbl =
   (tbl, (false, "Database error during enqueue: Python int too large to convert to SQLite INTEGER"))).
Proof.
  rewrite enqueue_job_eq.
  destruct (Storage.int64 (Job.attempts job) &&
            Storage.int64 (Job.max_retries job)) eqn:E.
  - split; [|split].
    + intros Hid. rewrite bool_decide_eq_true_2 by exact Hid.
      eexists. split; reflexivity.
    + intros Hid _. rewrite bool_decide_eq_false_2 by exact Hid. reflexivity.
    + intros H. destruct H. by apply fits_integer_spec.
  - assert (¬ fits_integer job) as Hno.
    { intros H%fits_integer_spec. congruence. }
    split; [|split].
    + intros _. eexists. split; [reflexivity|]. intros H. by destruct Hno.
    + intros _ H. by destruct Hno.
    + intros _. reflexivity.
Qed.

Lemma enqueue_job_rejects_existing_id_witness :
  (Job.id (Job.set_state "dead" job_a) ∈ Job.id <$> [job_a]) ∧
  (∃ message,
     Storage.enqueue_job (Job.set_state "dead" job_a) [job_a] =
     ([job_a], (false, message))) ∧
  (Job.id job_b ∉ Job.id <$> [job_a]) ∧ fits_integer job_b ∧
  Storage.enqueue_job job_b [job_a] =
    ([job_a; job_b], (true, "Job b added to queue in 'pending' state.")) ∧
  ¬ fits_integer job_b_huge ∧
  Storage.enqueue_job job_b_huge [job_a] =
    ([job_a],
     (false, "Database error during enqueue: Python int too large to convert to SQLite INTEGER")).
Proof.
  assert (Job.id (Job.set_state "dead" job_a) ∈ Job.id <$> [job_a]) as Hin.
  { apply list_elem_of_singleton. reflexivity. }
  assert (Job.id job_b ∉ Job.id <$> [job_a]) as Hout.
  { intros H%list_elem_of_singleton. discriminate H. }
  assert (fits_integer job_b) as Hfits by (split; exact I).
  assert (¬ fits_integer job_b_huge) as Hhuge by (intros [_ H]; exact H).
  split; [exact Hin|]. split.
  - destruct (proj1 (enqueue_job_rejects_existing_id _ [job_a]) Hin)
      as (message & Heq & _).
    exists message. exact Heq.
  - split; [exact Hout|]. split; [exact Hfits|]. split.
    + exact (proj1 (proj2 (enqueue_job_rejects_existing_id job_b [job_a]))
               Hout Hfits).
    + split; [exact Hhuge|].
      exact (proj2 (proj2 (enqueue_job_rejects_existing_id job_b_huge
                             [job_a])) Hhuge).
Defined.

(** * The administrative requeue *)

Section retry_lemmas.

Implicit Types (tbl : Storage.table) (r : Job.t).

Lemma distinct_ids_eq tbl r r' :
  distinct_ids tbl → r ∈ tbl → r' ∈ tbl → Job.id r = Job.id r' → r = r'.
Proof.
  unfold distinct_ids. intros Hnd Hr Hr' Hid.
  apply list_elem_of_lookup in Hr as [i Hi].
  apply list_elem_of_lookup in Hr' as [i' Hi'].
  assert (i = i') as <-; [|congruence].
  eapply NoDup_lookup; [exact Hnd| |].
  - rewrite list_lookup_fmap, Hi. reflexivity.
  - rewrite list_lookup_fmap, Hi'. simpl. by rewrite Hid.
Qed.

Lemma get_job_by_id_absent now job_id tbl :
  job_id ∉ Job.id <$> tbl → Storage.get_job_by_id now job_id tbl = Ok None.
Proof.
  intros Hid. unfold Storage.get_job_by_id. rewrite row_to_job_ok.
  destruct (filter _ tbl) as [|r l] eqn:E; [done|]. exfalso. apply Hid.
  assert (r ∈ filter (λ r, Job.id r = job_id) tbl) as Hr
    by (rewrite E; left).
  apply list_elem_of_filter in Hr as [<- Hr].
  apply list_elem_of_fmap. by exists r.
Qed.

Lemma get_job_by_id_present now job_id tbl r :
  distinct_ids tbl → r ∈ tbl → Job.id r = job_id →
  Storage.get_job_by_id now job_id tbl = Ok (Some r).
Proof.
  intros Hnd Hr Hid. unfold Storage.get_job_by_id. rewrite row_to_job_ok.
  destruct (filter _ tbl) as [|r' l] eqn:E.
  - assert (r ∈ filter (λ r, Job.id r = job_id) tbl) as Hf
      by (by apply list_elem_of_filter).
    rewrite E in Hf. by apply not_elem_of_nil in Hf.
  - assert (r' ∈ filter (λ r, Job.id r = job_id) tbl) as Hr'
      by (rewrite E; left).
    apply list_elem_of_filter in Hr' as [Hid' Hr'].
    simpl. do 2 f_equal. eapply distinct_ids_eq; eauto. congruence.
Qed.

End retry_lemmas.

(** C6. [dlq retry] of an id that no row has, or whose row is not dead,
    echoes an error line and returns the table as it was. On a dead row
    it returns a table in which that row has state pending, attempts 0 and
    [retry_after_time] NULL, with its [id], [command], [max_retries] and
    [created_at] as before and [updated_at] refreshed; every other row is
    unchanged. The table has distinct ids, as the primary key ensures. *)
Theorem retry_requeues_only_dead
    (now now_upd : datetime) (job_id : string) (tbl : Storage.table) :
  (job_id ∉ Job.id <$> tbl →
   Cli.retry now now_upd job_id tbl =
   Ok (tbl, "Error: Job ID '" +:+ job_id +:+ "' not found.")) ∧
  (∀ r, distinct_ids tbl → r ∈ tbl → Job.id r = job_id →
     (Job.state r ≠ "dead" →
      Cli.retry now now_upd job_id tbl =
      Ok (tbl, "Error: Job '" +:+ job_id +:+ "' is in state '"
                 +:+ Job.state r +:+ "', not 'dead'.")) ∧
     (Job.state r = "dead" →
      ∃ tbl' echo,
        Cli.retry now now_upd job_id tbl = Ok (tbl', echo) ∧
        length tbl' = length tbl ∧
        ∀ (i : nat) r0, tbl !! i = Some r0 →
          tbl' !! i = Some (if decide (Job.id r0 = job_id)
                            then requeued (isoformat now_upd) r0 else r0))).
Proof.
  split.
  - intros Hid. unfold Cli.retry.
    by rewrite get_job_by_id_absent.
  - intros r Hnd Hr Hid. unfold Cli.retry.
    rewrite (get_job_by_id_present now job_id tbl r) by done. simpl.
    split; intros Hst.
    + by rewrite bool_decide_eq_true_2.
    + rewrite bool_decide_eq_false_2 by (by intros ?).
      eexists _, _. split; [done|]. split.
      * unfold Storage.update_where_id. by rewrite length_fmap.
      * intros i r0 Hr0. rewrite update_where_id_lookup, Hr0. simpl.
        f_equal. rewrite Hid. case_bool_decide; case_decide; done.
Qed.

Lemma retry_requeues_only_dead_witness :
  (("zz" : string) ∉ Job.id <$> [job_a_dead; job_b]) ∧
  Cli.retry t0 t0 "zz" [job_a_dead; job_b] =
    Ok ([job_a_dead; job_b], "Error: Job ID 'zz' not found.") ∧
  Cli.retry t0 t0 "b" [job_a_dead; job_b] =
    Ok ([job_a_dead; job_b], "Error: Job 'b' is in state 'pending', not 'dead'.") ∧
  ∃ tbl' echo,
    Cli.retry t0 t0 "a" [job_a_dead; job_b] = Ok (tbl', echo) ∧
    tbl' !! 0%nat = Some (requeued (isoformat t0) job_a_dead) ∧
    tbl' !! 1%nat = Some job_b.
Proof.
  assert (distinct_ids [job_a_dead; job_b]) as Hnd.
  { unfold distinct_ids. simpl. apply NoDup_cons. split.
    - intros H%list_elem_of_singleton. discriminate H.
    - apply NoDup_singleton. }
  assert (("zz" : string) ∉ Job.id <$> [job_a_dead; job_b]) as Hzz.
  { simpl. intros H. apply elem_of_cons in H as [H|H]; [discriminate H|].
    apply list_elem_of_singleton in H. discriminate H. }
  pose proof (retry_requeues_only_dead t0 t0 "zz" [job_a_dead; job_b]) as Hz.
  pose proof (retry_requeues_only_dead t0 t0 "b" [job_a_dead; job_b]) as Hb.
  pose proof (retry_requeues_only_dead t0 t0 "a" [job_a_dead; job_b]) as Ha.
  split; [exact Hzz|]. split; [exact (proj1 Hz Hzz)|]. split.
  - refine (proj1 (proj2 Hb job_b Hnd _ eq_refl) _).
    + right. left.
    + discriminate.
  - destruct (proj2 (proj2 Ha job_a_dead Hnd (list_elem_of_here _ _) eq_refl) eq_refl)
      as (tbl' & echo & Heq & _ & Hrows).
    exists tbl', echo. split; [exact Heq|]. split.
    + exact (Hrows 0%nat job_a_dead eq_refl).
    + exact (Hrows 1%nat job_b eq_refl).
Defined.

(** * The worker's transitions *)

Section worker.

Variable retry_base : Z.

Implicit Types (tbl : Storage.table) (job : Job.t).

Lemma datetime_add_Some (dt : datetime) (td : Z) :
  representable (dt + td) → datetime_add dt td = Some (dt + td).
Proof.
  intros [Hmin Hmax]. unfold datetime_add.
  apply Z.leb_le in Hmin. apply Z.leb_le in Hmax.
  rewrite Hmin, Hmax. reflexivity.
Qed.


(** A delay that keeps a [datetime] a [datetime] is one that
    [timedelta] holds and that binary64 holds exactly. *)
Lemma delay_within_timedelta (now : datetime) (seconds : Z) :
  representable now → representable (now + timedelta seconds) →
  Z.abs seconds <= 86399999999999 ∧ Z.abs seconds < 2 ^ 53.
Proof.
  unfold representable, datetime_min, datetime_max, timedelta.
  intros Hnow Hsum. split; [lia|].
  change (2 ^ 53) with 9007199254740992. lia.
Qed.

Lemma update_job_state_eq now job tbl :
  Storage.update_job_state now job tbl =
  (Storage.update_where_id (Job.id job) (written (isoformat now) job) tbl,
   Job.set_updated_at (isoformat now) job).
Proof. reflexivity. Qed.

(** What [handle_failure] does, by the threshold and by the range of
    [datetime]. *)
Lemma handle_failure_eq now now_upd job tbl :
  Worker.handle_failure retry_base now now_upd job tbl =
  if Job.attempts job + 1 >=? Job.max_retries job then
    (Storage.update_job_state now_upd (failed 1 "dead" None job) tbl,
     Worker.Returns)
  else
    match datetime_add now (timedelta (retry_base ^ (Job.attempts job + 1)))
    with
    | Some retry_time =>
        (Storage.update_job_state now_upd
           (failed 1 "pending" (Some (isoformat retry_time)) job) tbl,
         Worker.Returns)
    | None =>
        (tbl, failed 1 "pending" (Job.retry_after_time job) job,
         Worker.Raises)
    end.
Proof.
  unfold Worker.handle_failure, math_pow.
  cbn [Job.attempts Job.max_retries Job.set_attempts].
  destruct (Job.attempts job + 1 >=? Job.max_retries job); [reflexivity|].
  destruct (datetime_add _ _); reflexivity.
Qed.

Lemma handle_failure_dead now now_upd job tbl :
  Job.max_retries job <= Job.attempts job + 1 →
  Worker.handle_failure retry_base now now_upd job tbl =
  (Storage.update_job_state now_upd (failed 1 "dead" None job) tbl,
   Worker.Returns).
Proof.
  intros H. rewrite handle_failure_eq.
  destruct (Z.geb_spec (Job.attempts job + 1) (Job.max_retries job));
    [reflexivity|lia].
Qed.

Lemma handle_failure_pending now now_upd job tbl :
  Job.attempts job + 1 < Job.max_retries job →
  representable (now + timedelta (retry_base ^ (Job.attempts job + 1))) →
  Worker.handle_failure retry_base now now_upd job tbl =
  (Storage.update_job_state now_upd
     (failed 1 "pending"
        (Some (isoformat
                 (now + timedelta (retry_base ^ (Job.attempts job + 1)))))
        job) tbl,
   Worker.Returns).
Proof.
  intros H Hrt. rewrite handle_failure_eq.
  destruct (Z.geb_spec (Job.attempts job + 1) (Job.max_retries job));
    [lia|].
  rewrite (datetime_add_Some _ _ Hrt). reflexivity.
Qed.



(** Whatever way [handle_failure] ends, the job object is not completed. *)
Lemma handle_failure_state now now_upd job tbl :
  Job.state (Worker.handle_failure retry_base now now_upd job tbl).1.2
    ≠ "completed".
Proof.
  rewrite handle_failure_eq.
  destruct (Job.attempts job + 1 >=? Job.max_retries job);
    [discriminate|].
  destruct (datetime_add _ _); discriminate.
Qed.

(** The job and the rows that leave [process_job]: completed; or failed
    and written back dead or pending, after one increment or, when the
    first call of [handle_failure] raised, two; or failed and left by the
    exception with the table as it was. A job that comes out dead below
    its first threshold has exactly [max_retries] attempts. *)
Lemma process_job_cases now now_retry now_upd outcome job tbl :
  ∃ job' ended,
    Worker.process_job retry_base now now_retry now_upd outcome job tbl =
    (match ended with
     | Worker.Returns =>
         Storage.update_where_id (Job.id job)
           (written (Job.updated_at job') job') tbl
     | Worker.Raises => tbl
     end, job', ended) ∧
    Job.id job' = Job.id job ∧ Job.max_retries job' = Job.max_retries job ∧
    ((ended = Worker.Returns ∧ outcome = Worker.CompletedProcess 0 ∧
      Job.state job' = "completed" ∧ Job.attempts job' = Job.attempts job ∧
      Job.retry_after_time job' = None) ∨
     (is_failure outcome ∧
      Job.attempts job < Job.attempts job' <= Job.attempts job + 2 ∧
      ((ended = Worker.Returns ∧ Job.state job' = "dead" ∧
        Job.retry_after_time job' = None ∧
        Job.max_retries job <= Job.attempts job' ∧
        (Job.attempts job' = Job.attempts job + 1 ∨
         Job.attempts job' = Job.max_retries job)) ∨
       (ended = Worker.Returns ∧ Job.state job' = "pending" ∧
        Job.retry_after_time job' ≠ None ∧
        Job.attempts job' < Job.max_retries job) ∨
       (ended = Worker.Raises ∧ Job.state job' = "pending" ∧
        Job.attempts job' < Job.max_retries job ∧
        Job.retry_after_time job' = Job.retry_after_time job)))).
Proof.
  assert (∀ now0 j tbl0,
    ∃ job' ended,
      Worker.handle_failure retry_base now0 now_upd j tbl0 =
      (match ended with
       | Worker.Returns =>
           Storage.update_where_id (Job.id j)
             (written (Job.updated_at job') job') tbl0
       | Worker.Raises => tbl0
       end, job', ended) ∧
      Job.id job' = Job.id j ∧ Job.max_retries job' = Job.max_retries j ∧
      Job.attempts job' = Job.attempts j + 1 ∧
      ((ended = Worker.Returns ∧ Job.state job' = "dead" ∧
        Job.retry_after_time job' = None ∧
        Job.max_retries j <= Job.attempts j + 1) ∨
       (ended = Worker.Returns ∧ Job.state job' = "pending" ∧
        Job.retry_after_time job' ≠ None ∧
        Job.attempts j + 1 < Job.max_retries j) ∨
       (ended = Worker.Raises ∧ Job.state job' = "pending" ∧
        Job.attempts j + 1 < Job.max_retries j ∧
        Job.retry_after_time job' = Job.retry_after_time j ∧
        job' = failed 1 "pending" (Job.retry_after_time j) j))) as Hfail.
  { intros now0 j tbl0. rewrite handle_failure_eq.
    destruct (Z.geb_spec (Job.attempts j + 1) (Job.max_retries j))
      as [Hge|Hlt].
    - exists (Job.set_updated_at (isoformat now_upd) (failed 1 "dead" None j)),
        Worker.Returns. rewrite update_job_state_eq.
      split; [reflexivity|]. split; [reflexivity|]. split; [reflexivity|].
      split; [reflexivity|]. left. repeat split. lia.
    - destruct (datetime_add _ _) as [retry_time|].
      + exists (Job.set_updated_at (isoformat now_upd)
                  (failed 1 "pending" (Some (isoformat retry_time)) j)),
          Worker.Returns. rewrite update_job_state_eq.
        split; [reflexivity|]. split; [reflexivity|]. split; [reflexivity|].
        split; [reflexivity|]. right. left.
        split; [reflexivity|]. split; [reflexivity|].
        split; [discriminate|lia].
      + eexists _, Worker.Raises.
        split; [reflexivity|]. split; [reflexivity|]. split; [reflexivity|].
        split; [reflexivity|]. right. right.
        split; [reflexivity|]. split; [reflexivity|].
        split; [lia|]. split; reflexivity. }
  assert (∀ o, (∀ rc, o = Worker.CompletedProcess rc → rc ≠ 0) →
               is_failure o) as Hfo.
  { intros o Ho Heq. by apply (Ho 0). }
  unfold Worker.process_job. destruct outcome as [rc|status].
  - destruct (Z.eqb_spec rc 0) as [->|Hrc].
    + unfold Worker.handle_success. rewrite update_job_state_eq.
      exists (Job.set_updated_at (isoformat now_upd)
                (Job.set_retry_after_time None
                   (Job.set_state "completed" job))), Worker.Returns.
      split; [reflexivity|].
      split; [reflexivity|]. split; [reflexivity|]. left.
      repeat split.
    + assert (is_failure (Worker.CompletedProcess rc)) as Hf
        by (apply Hfo; intros rc' [= <-]; exact Hrc).
      destruct (Hfail now job tbl)
        as (j1 & e1 & -> & Hid1 & Hmax1 & Hat1 & Hc1).
      destruct e1.
      * exists j1, Worker.Returns. split; [reflexivity|].
        split; [exact Hid1|]. split; [exact Hmax1|]. right.
        split; [exact Hf|]. split; [lia|].
        destruct Hc1 as [(_ & ? & ? & ?)|[(_ & ? & ? & ?)|(He & _)]];
          [left|right; left|discriminate He].
        -- split; [reflexivity|]. split; [assumption|].
           split; [assumption|]. split; [lia|]. left. exact Hat1.
        -- split; [reflexivity|]. split; [assumption|].
           split; [assumption|]. lia.
      * destruct Hc1 as [(He & _)|[(He & _)|(_ & Hst1 & Hlt1 & Hr1 & _)]];
          [discriminate He..|].
        destruct (Hfail now_retry j1 tbl)
          as (j2 & e2 & -> & Hid2 & Hmax2 & Hat2 & Hc2).
        exists j2, e2. rewrite Hid1. split; [reflexivity|].
        split; [congruence|]. split; [congruence|]. right.
        split; [exact Hf|]. split; [lia|].
        destruct Hc2 as [(-> & ? & ? & ?)|[(-> & ? & ? & ?)
                        |(-> & ? & ? & ? & _)]];
          [left|right; left|right; right].
        -- split; [reflexivity|]. split; [assumption|].
           split; [assumption|]. split; [lia|]. right. lia.
        -- split; [reflexivity|]. split; [assumption|].
           split; [assumption|]. lia.
        -- split; [reflexivity|]. split; [assumption|].
           split; [lia|]. congruence.
  - assert (is_failure (Worker.RunRaised status)) as Hf
      by (apply Hfo; intros rc' [=]).
    destruct (Hfail now job tbl)
      as (j1 & e1 & -> & Hid1 & Hmax1 & Hat1 & Hc1).
    exists j1, e1. split; [reflexivity|].
    split; [exact Hid1|]. split; [exact Hmax1|]. right.
    split; [exact Hf|]. split; [lia|].
    destruct Hc1 as [(-> & ? & ? & ?)|[(-> & ? & ? & ?)
                    |(-> & ? & ? & ? & _)]];
      [left|right; left|right; right].
    + split; [reflexivity|]. split; [assumption|].
      split; [assumption|]. split; [lia|]. left. exact Hat1.
    + split; [reflexivity|]. split; [assumption|].
      split; [assumption|]. lia.
    + split; [reflexivity|]. split; [assumption|].
      split; [lia|]. assumption.
Qed.

End worker.







(** * Invariants of the reachable states *)

Section invariants.

Variable retry_base : Z.

Implicit Types (tbl : Storage.table) (r job : Job.t) (s : Queue.sys).

Lemma cli_enqueue_eq now id command max_retries tbl tbl' echo :
  Cli.enqueue now id command max_retries tbl = Ok (tbl', echo) →
  tbl' = tbl ∨
  (id ∉ Job.id <$> tbl) ∧
  tbl' = tbl ++ [Job.mk id command (default 3 max_retries) "pending" 0
                   (isoformat now) (isoformat now) None].
Proof.
  unfold Cli.enqueue, Job.init, Job.get_str, Job.get_int, Job.get_opt_str.
  rewrite !lookup_empty. simpl. rewrite enqueue_job_eq. simpl.
  destruct (Storage.int64 (default 3 max_retries));
    [|intros [= <- _]; by left].
  case_bool_decide; intros [= <- _]; [by left|by right].
Qed.

Lemma update_where_id_key id set tbl :
  (∀ r, key (set r) = key r) →
  key <$> Storage.update_where_id id set tbl = key <$> tbl.
Proof.
  intros Hk. unfold Storage.update_where_id. rewrite <- list_fmap_compose.
  apply list_fmap_ext. intros _ r _. simpl. by case_bool_decide.
Qed.

Lemma key_ids tbl tbl' :
  key <$> tbl' = key <$> tbl → Job.id <$> tbl' = Job.id <$> tbl.
Proof.
  intros H. apply (f_equal (fmap fst)) in H.
  by rewrite <- !list_fmap_compose in H.
Qed.

Lemma key_elem tbl tbl' r' :
  key <$> tbl' = key <$> tbl → r' ∈ tbl' → ∃ r, r ∈ tbl ∧ key r = key r'.
Proof.
  intros H Hr'.
  assert (key r' ∈ key <$> tbl) as Hk.
  { rewrite <- H. apply list_elem_of_fmap. by exists r'. }
  apply list_elem_of_fmap in Hk as (r & ? & ?). by exists r.
Qed.

Lemma held_ok_key tbl tbl' job :
  key <$> tbl' = key <$> tbl → held_ok tbl job → held_ok tbl' job.
Proof.
  intros H (Hst & Hat & (r & Hr & Hid) & Hmax).
  split; [done|]. split; [done|]. split.
  - destruct (key_elem tbl' tbl r (eq_sym H) Hr) as (r' & Hr' & [= ? ?]).
    exists r'. split; [done|]. congruence.
  - intros r' Hr' Hid'.
    destruct (key_elem tbl tbl' r' H Hr') as (r0 & Hr0 & [= ? ?]).
    rewrite <- (Hmax r0); [congruence|done|congruence].
Qed.

Lemma held_ok_app tbl job new :
  Job.id new ∉ Job.id <$> tbl → held_ok tbl job → held_ok (tbl ++ [new]) job.
Proof.
  intros Hnew (Hst & Hat & (r & Hr & Hid) & Hmax).
  split; [done|]. split; [done|]. split.
  - exists r. split; [|done]. apply elem_of_app. by left.
  - intros r' [Hr'| ->%list_elem_of_singleton]%elem_of_app Hid'.
    + by apply Hmax.
    + exfalso. apply Hnew. apply list_elem_of_fmap. exists r.
      split; [congruence|done].
Qed.

Lemma row_ok_update id set tbl :
  Forall row_ok tbl →
  (∀ r, r ∈ tbl → Job.id r = id → row_ok r → row_ok (set r)) →
  Forall row_ok (Storage.update_where_id id set tbl).
Proof.
  rewrite !Forall_forall. intros Hok Hset r' (r & Hr & ->)%update_where_id_elem.
  case_bool_decide; auto.
Qed.

End invariants.

Section reachable_states.

Variable retry_base : Z.

Implicit Types (tbl : Storage.table) (r job : Job.t) (s : Queue.sys).

Lemma inv_init : inv Queue.init.
Proof.
  split; [apply NoDup_nil_2|]. split; apply Forall_nil_2.
Qed.

Lemma inv_enqueue s now id command max_retries tbl' echo :
  inv s → 1 <= default 3 max_retries →
  Cli.enqueue now id command max_retries (Queue.store s) = Ok (tbl', echo) →
  inv (Queue.mk tbl' (Queue.held s)).
Proof.
  intros (Hnd & Hrows & Hheld) Hmr Heq.
  apply cli_enqueue_eq in Heq as [-> | [Hid ->]]; [done|].
  split; [|split]; simpl.
  - unfold distinct_ids. rewrite fmap_app. apply NoDup_app.
    split; [done|]. split; [|apply NoDup_singleton].
    by intros x Hx ->%list_elem_of_singleton.
  - apply Forall_app. split; [done|]. apply Forall_singleton.
    unfold row_ok; simpl. split; [done|]. split; [lia|].
    split; [split; [discriminate|lia]|done].
  - eapply Forall_impl; [exact Hheld|]. intros job. by apply held_ok_app.
Qed.

Lemma inv_claim s now tbl' job :
  inv s →
  Storage.pick_job_for_worker now (Queue.store s) = (tbl', Some job) →
  inv (Queue.mk tbl' (job :: Queue.held s)).
Proof.
  intros (Hnd & Hrows & Hheld) Heq.
  rewrite pick_job_for_worker_eq in Heq.
  destruct (Storage.order_by_created_at_limit_1 _) as [row|] eqn:E;
    [|discriminate].
  injection Heq as <- <-.
  apply order_by_created_at_Some in E as [Hin _].
  apply list_elem_of_filter in Hin as [[Hst _]%ready_eligible Hin].
  set (tbl' := Storage.update_where_id _ _ _).
  assert (key <$> tbl' = key <$> Queue.store s) as Hkey
    by (by apply update_where_id_key).
  assert (row_ok row) as (Hm & Ha & Hd & Hr)
    by (rewrite Forall_forall in Hrows; auto).
  assert (Job.attempts row < Job.max_retries row) as Hlt.
  { destruct (Z.lt_ge_cases (Job.attempts row) (Job.max_retries row))
      as [?|Hge]; [done|]. apply Hd in Hge. congruence. }
  split; [|split]; simpl.
  - unfold distinct_ids. by rewrite (key_ids _ _ Hkey).
  - apply row_ok_update; [done|]. intros r Hr0 Hid _.
    assert (r = row) as -> by (eapply distinct_ids_eq; eauto).
    unfold row_ok; simpl. split; [done|]. split; [done|]. split.
    + split; [discriminate|lia].
    + intros Hne. destruct (Hr Hne) as [_ ?]. split; [by right|done].
  - apply Forall_cons. split.
    + split; [done|]. split; [simpl; lia|]. split.
      * destruct (key_elem _ _ row (eq_sym Hkey) Hin) as (r' & ? & [= ? ?]).
        by exists r'.
      * intros r' Hr' Hid'.
        destruct (key_elem _ _ r' Hkey Hr') as (r0 & Hr0 & [= Hi Hmx]).
        simpl in *. rewrite <- Hmx. f_equal.
        eapply distinct_ids_eq; eauto. congruence.
    + eapply Forall_impl; [exact Hheld|]. intros j. by apply held_ok_key.
Qed.

Lemma inv_process s now now_retry now_upd outcome job h1 h2 tbl' job' ended :
  inv s → Queue.held s = h1 ++ job :: h2 →
  Worker.process_job retry_base now now_retry now_upd outcome job
    (Queue.store s) = (tbl', job', ended) →
  inv (Queue.mk tbl' (h1 ++ h2)).
Proof.
  intros (Hnd & Hrows & Hheld) Hh Heq.
  destruct (process_job_cases retry_base now now_retry now_upd outcome job
              (Queue.store s)) as (j & e & Heq' & _ & _ & Hcase).
  rewrite Heq' in Heq. injection Heq as <- <- <-.
  rewrite Hh in Hheld. apply Forall_app in Hheld as [Hh1 Hh2].
  apply Forall_cons in Hh2 as [(_ & Hat & _ & Hmax) Hh2].
  destruct e.
  - set (tbl' := Storage.update_where_id _ _ _).
    assert (key <$> tbl' = key <$> Queue.store s) as Hkey
      by (by apply update_where_id_key).
    split; [|split]; simpl.
    + unfold distinct_ids. by rewrite (key_ids _ _ Hkey).
    + apply row_ok_update; [done|]. intros r Hr Hid (Hm & _).
      specialize (Hmax r Hr Hid).
      unfold row_ok, written; simpl. split; [done|].
      destruct Hcase as [(_ & _ & -> & -> & ->)
                        |(_ & Hb & [(_ & -> & -> & ? & Hd)
                                   |[(_ & -> & ? & ?)|(He & _)]])];
        [| | |discriminate He].
      * split; [lia|]. split; [split; [discriminate|lia]|done].
      * split; [lia|]. split; [split; [lia|done]|done].
      * split; [lia|]. split; [split; [discriminate|lia]|].
        intros _. split; [by left|lia].
    + apply Forall_app. split.
      * eapply Forall_impl; [exact Hh1|]. intros j0. by apply held_ok_key.
      * eapply Forall_impl; [exact Hh2|]. intros j0. by apply held_ok_key.
  - split; [done|]. split; [done|]. simpl.
    apply Forall_app. by split.
Qed.

Lemma inv_retry s now now_upd job_id tbl' echo :
  inv s →
  Cli.retry now now_upd job_id (Queue.store s) = Ok (tbl', echo) →
  inv (Queue.mk tbl' (Queue.held s)).
Proof.
  intros (Hnd & Hrows & Hheld). unfold Cli.retry, Storage.get_job_by_id.
  rewrite row_to_job_ok. simpl.
  destruct (head _) as [row|]; [|by intros [= <- _]].
  case_bool_decide; [by intros [= <- _]|]. simpl. intros [= <- _].
  set (tbl' := Storage.update_where_id _ _ _).
  assert (key <$> tbl' = key <$> Queue.store s) as Hkey
    by (by apply update_where_id_key).
  split; [|split]; simpl.
  - unfold distinct_ids. by rewrite (key_ids _ _ Hkey).
  - apply row_ok_update; [done|]. intros r Hr Hid (Hm & _).
    unfold row_ok; simpl. split; [done|]. split; [lia|].
    split; [split; [discriminate|lia]|done].
  - eapply Forall_impl; [exact Hheld|]. intros j0. by apply held_ok_key.
Qed.

Lemma inv_step s e s' : inv s → Queue.step retry_base s e s' → inv s'.
Proof.
  intros Hinv Hstep. destruct Hstep.
  - by eapply inv_enqueue.
  - by eapply inv_claim.
  - by eapply inv_process.
  - by eapply inv_retry.
Qed.

Lemma reachable_inv s : Queue.reachable retry_base s → inv s.
Proof.
  induction 1 as [|s e s' _ IH Hstep]; [apply inv_init|].
  by eapply inv_step.
Qed.

(** The primary key holds in every reachable state. *)
Lemma reachable_distinct_ids s :
  Queue.reachable retry_base s → distinct_ids (Queue.store s).
Proof. by intros (? & _)%reachable_inv. Qed.

End reachable_states.

(** The sample state is reached by enqueue, claim and one failed run. *)
Lemma sys_retrying_reachable : Queue.reachable 2 sys_retrying.
Proof.
  apply (Queue.reachable_step 2 (Queue.mk [job_a_claimed] [job_a_claimed])
           (Queue.Process "a" (Worker.CompletedProcess 1))).
  - apply (Queue.reachable_step 2 (Queue.mk [job_a] []) (Queue.Claim "a")).
    + apply (Queue.reachable_step 2 Queue.init (Queue.Enqueue "a"));
        [apply Queue.reachable_init|].
      apply (Queue.step_enqueue 2 Queue.init t0 "a" "false" None [job_a]
               "Job a added to queue in 'pending' state.");
        [simpl; lia|reflexivity].
    + apply (Queue.step_claim 2 (Queue.mk [job_a] []) (t0 + 1000000)
               [job_a_claimed] job_a_claimed).
      reflexivity.
  - apply (Queue.step_process 2 (Queue.mk [job_a_claimed] [job_a_claimed])
             (t0 + 2000000) (t0 + 2000000) (t0 + 2000000)
             (Worker.CompletedProcess 1)
             job_a_claimed [] [] [job_a_retrying] job_a_retrying
             Worker.Returns);
      reflexivity.
Qed.

Lemma sys_dead_reachable : Queue.reachable 2 sys_dead.
Proof.
  apply (Queue.reachable_step 2 (Queue.mk [job_c_claimed] [job_c_claimed])
           (Queue.Process "c" (Worker.CompletedProcess 1))).
  - apply (Queue.reachable_step 2 (Queue.mk [job_c] []) (Queue.Claim "c")).
    + apply (Queue.reachable_step 2 Queue.init (Queue.Enqueue "c"));
        [apply Queue.reachable_init|].
      apply (Queue.step_enqueue 2 Queue.init t0 "c" "exit 1" (Some 1) [job_c]
               "Job c added to queue in 'pending' state.");
        [simpl; lia|reflexivity].
    + apply (Queue.step_claim 2 (Queue.mk [job_c] []) (t0 + 1000000)
               [job_c_claimed] job_c_claimed).
      reflexivity.
  - apply (Queue.step_process 2 (Queue.mk [job_c_claimed] [job_c_claimed])
             (t0 + 2000000) (t0 + 2000000) (t0 + 2000000)
             (Worker.CompletedProcess 1)
             job_c_claimed [] [] [job_c_dead] job_c_dead Worker.Returns);
      reflexivity.
Qed.

Section provenance.

Variable retry_base : Z.


End provenance.



(** * The life of [retry_after_time] *)

(** The claim of the retrying job at the instant its delay ends is a step
    of the system. *)
Lemma sys_reclaimed_reachable : Queue.reachable 2 sys_reclaimed.
Proof.
  apply (Queue.reachable_step 2 sys_retrying (Queue.Claim "a"));
    [apply sys_retrying_reachable|].
  apply (Queue.step_claim 2 sys_retrying (t0 + 4000000)
           [job_a_reclaimed] job_a_reclaimed).
  reflexivity.
Qed.

(** C4, as stated, fails: [pick_job_for_worker] writes [state] and
    [updated_at] only. After enqueue, claim, one failed run with base 2
    and a second claim at the instant the delay ends, the row is
    processing and still holds the [retry_after_time] of the failure. *)
Lemma claim_keeps_retry_after_time :
  Queue.reachable 2 sys_reclaimed ∧
  Storage.pick_job_for_worker (t0 + 4000000) [job_a_retrying] =
    ([job_a_reclaimed], Some job_a_reclaimed) ∧
  Queue.store sys_reclaimed = [job_a_reclaimed] ∧
  Job.state job_a_reclaimed = "processing" ∧
  Job.retry_after_time job_a_reclaimed = Some "2024-01-01T00:00:04+00:00".
Proof.
  split; [exact sys_reclaimed_reachable|]. repeat split.
Qed.

(** C4, amended. In every reachable state a row whose [retry_after_time]
    is not NULL is pending or processing and has failed at least once, so
    completed and dead rows hold NULL. The handling of a run that leaves
    the job completed or dead writes NULL to the job and to the rows of
    its id. Claiming leaves the [retry_after_time] of every row as it
    was. *)
Theorem retry_after_time_lifecycle (retry_base : Z) :
  (∀ s r, Queue.reachable retry_base s → r ∈ Queue.store s →
     Job.retry_after_time r ≠ None →
     (Job.state r = "pending" ∨ Job.state r = "processing") ∧
     1 <= Job.attempts r) ∧
  (∀ now now_retry now_upd outcome job tbl,
     let '(tbl', job', _) :=
       Worker.process_job retry_base now now_retry now_upd outcome job tbl in
     Job.state job' = "completed" ∨ Job.state job' = "dead" →
     Job.retry_after_time job' = None ∧
     ∀ r', r' ∈ tbl' → Job.id r' = Job.id job →
           Job.retry_after_time r' = None) ∧
  (∀ now tbl (i : nat) r, tbl !! i = Some r →
     ∃ r', (Storage.pick_job_for_worker now tbl).1 !! i = Some r' ∧
           Job.retry_after_time r' = Job.retry_after_time r).
Proof.
  split; [|split].
  - intros s r (_ & Hrows & _)%reachable_inv Hr Hne.
    rewrite Forall_forall in Hrows.
    destruct (Hrows r Hr) as (_ & _ & _ & H). by apply H.
  - intros now now_retry now_upd outcome job tbl.
    destruct (process_job_cases retry_base now now_retry now_upd outcome
                job tbl) as (j & e & -> & _ & _ & Hcase).
    intros Hst.
    assert (Job.retry_after_time j = None ∧ e = Worker.Returns)
      as [Hnone ->].
    { destruct Hcase as [(? & _ & _ & _ & ?)
                        |(_ & _ & [(? & _ & ? & _)
                                  |[(_ & Hp & _)|(_ & Hp & _)]])];
        [done..| |]; rewrite Hp in Hst; by destruct Hst. }
    split; [done|].
    intros r' (r & Hr & ->)%update_where_id_elem Hid.
    case_bool_decide as E; [done|]. simpl in Hid. congruence.
  - intros now tbl i r Hr. rewrite pick_job_for_worker_eq.
    destruct (Storage.order_by_created_at_limit_1 _) as [row|]; simpl.
    + rewrite update_where_id_lookup, Hr. simpl. eexists. split; [done|].
      by case_bool_decide.
    + by exists r.
Qed.

Lemma retry_after_time_lifecycle_witness :
  Queue.reachable 2 sys_retrying ∧
  job_a_retrying ∈ Queue.store sys_retrying ∧
  Job.retry_after_time job_a_retrying ≠ None ∧
  (Job.state job_a_retrying = "pending" ∨
   Job.state job_a_retrying = "processing") ∧
  1 <= Job.attempts job_a_retrying.
Proof.
  assert (job_a_retrying ∈ Queue.store sys_retrying) as Hin
    by apply list_elem_of_here.
  assert (Job.retry_after_time job_a_retrying ≠ None) as Hne
    by discriminate.
  split; [exact sys_retrying_reachable|]. split; [exact Hin|].
  split; [exact Hne|].
  exact (proj1 (retry_after_time_lifecycle 2) sys_retrying job_a_retrying
           sys_retrying_reachable Hin Hne).
Defined.

(** * Dictionaries and jobs *)

(** The round trip through the store: the values bound by the INSERT from
    [to_dict] make a row that [row_to_job] turns back into the job. *)
Lemma row_to_job_round_trip (now : datetime) (j : Job.t) :
  (row ← Storage.insert_values (Job.to_dict j);
   Storage.row_to_job now (Some row)) = Ok (Some j).
Proof. rewrite insert_values_to_dict. simpl. apply row_to_job_Some. Qed.

(** [from_dict] returns on no dictionary: without [id] or [command] the
    subscript raises, with both the call binds [id] twice. *)
Lemma from_dict_never_returns (now : datetime) (data : dict) :
  ∃ e, Job.from_dict now data = Raise e.
Proof.
  unfold Job.from_dict, getitem.
  destruct (data !! "id") as [i|] eqn:Hi; simpl; [|by eexists].
  destruct (data !! "command") as [c|] eqn:Hc; simpl; [|by eexists].
  destruct i; simpl; try by eexists.
  destruct c; simpl; try by eexists.
  unfold Job.call. rewrite Hi. by eexists.
Qed.

(** C10. The dictionary of a job, stored and read back by [row_to_job],
    gives the job again with all eight attributes. [Job.from_dict] does
    not: on the dictionary of any job it raises the TypeError that
    [row_to_job] avoids by popping [id] and [command]. *)
Theorem from_dict_to_dict_raises (now : datetime) (j : Job.t) :
  (row ← Storage.insert_values (Job.to_dict j);
   Storage.row_to_job now (Some row)) = Ok (Some j) ∧
  Job.from_dict now (Job.to_dict j) =
  Raise (TypeError "Job.__init__() got multiple values for argument 'id'").
Proof.
  split; [apply row_to_job_round_trip|]. destruct j. reflexivity.
Qed.

(** * Runs on concrete values *)

Example pick_at_the_instant :
  Storage.pick_job_for_worker (t0 + 4000000) [job_a_retrying] =
  ([job_a_reclaimed], Some job_a_reclaimed).
Proof. reflexivity. Qed.

Example pick_before_the_instant :
  Storage.pick_job_for_worker (t0 + 3999999) [job_a_retrying] =
  ([job_a_retrying], None).
Proof. reflexivity. Qed.

(** A [now] with a fraction is after the same second without one. *)
Example pick_after_the_instant :
  Storage.pick_job_for_worker (t0 + 4000001) [job_a_retrying] =
  ([Job.set_updated_at "2024-01-01T00:00:04.000001+00:00" job_a_reclaimed],
   Some (Job.set_updated_at "2024-01-01T00:00:04.000001+00:00"
           job_a_reclaimed)).
Proof. reflexivity. Qed.

Example pick_oldest_first :
  Storage.pick_job_for_worker (t0 + 4000000)
    [Job.set_state "completed" job_b; job_a_retrying;
     Job.mk "c" "true" 3 "pending" 0 "2023-12-31T23:59:59.999999+00:00"
            "2023-12-31T23:59:59.999999+00:00" None] =
  ([Job.set_state "completed" job_b; job_a_retrying;
    Job.mk "c" "true" 3 "processing" 0 "2023-12-31T23:59:59.999999+00:00"
           "2024-01-01T00:00:04+00:00" None],
   Some (Job.mk "c" "true" 3 "processing" 0 "2023-12-31T23:59:59.999999+00:00"
                "2024-01-01T00:00:04+00:00" None)).
Proof. reflexivity. Qed.

Example second_failure_waits_four_seconds :
  (Worker.handle_failure 2 (t0 + 5000000) (t0 + 5000000)
     job_a_reclaimed [job_a_reclaimed]).1.1 =
  [Job.mk "a" "false" 3 "pending" 2 "2024-01-01T00:00:00+00:00"
          "2024-01-01T00:00:05+00:00" (Some "2024-01-01T00:00:09+00:00")].
Proof. reflexivity. Qed.

Example third_failure_is_dead :
  (Worker.handle_failure 2 (t0 + 10000000) (t0 + 10000000)
     (Job.mk "a" "false" 3 "processing" 2 "2024-01-01T00:00:00+00:00"
             "2024-01-01T00:00:09+00:00" (Some "2024-01-01T00:00:09+00:00"))
     [Job.mk "a" "false" 3 "processing" 2 "2024-01-01T00:00:00+00:00"
             "2024-01-01T00:00:09+00:00" (Some "2024-01-01T00:00:09+00:00")]).1.1 =
  [Job.mk "a" "false" 3 "dead" 3 "2024-01-01T00:00:00+00:00"
          "2024-01-01T00:00:10+00:00" None].
Proof. reflexivity. Qed.

(** Base 1000000: the first failure waits 1000000 seconds, the second
    would wait until after year 9999. *)
Example first_failure_base_million :
  Worker.handle_failure 1000000 (t0 + 2000000) (t0 + 2000000)
    (Job.mk "e" "false" 5 "processing" 0 "2024-01-01T00:00:00+00:00"
            "2024-01-01T00:00:01+00:00" None)
    [Job.mk "e" "false" 5 "processing" 0 "2024-01-01T00:00:00+00:00"
            "2024-01-01T00:00:01+00:00" None] =
  ([Job.mk "e" "false" 5 "pending" 1 "2024-01-01T00:00:00+00:00"
           "2024-01-01T00:00:02+00:00" (Some "2024-01-12T13:46:42+00:00")],
   Job.mk "e" "false" 5 "pending" 1 "2024-01-01T00:00:00+00:00"
          "2024-01-01T00:00:02+00:00" (Some "2024-01-12T13:46:42+00:00"),
   Worker.Returns).
Proof. vm_compute. reflexivity. Qed.

Example claim_after_a_million_seconds :
  Storage.pick_job_for_worker (t0 + 1000002000000)
    [Job.mk "e" "false" 5 "pending" 1 "2024-01-01T00:00:00+00:00"
            "2024-01-01T00:00:02+00:00" (Some "2024-01-12T13:46:42+00:00")] =
  ([job_e_claimed], Some job_e_claimed).
Proof. vm_compute. reflexivity. Qed.

(** A negative base alternates the sign of the delay: from an instant in
    year 1000 the 35th power of -2 leaves the range of [datetime], and
    the second call of [handle_failure], reading the clock again five
    microseconds later, adds the 36th power. *)
Example second_call_reads_the_clock_again :
  Worker.process_job (-2) (-30597177600000000) (-30597177599999995)
    (-30597177599999993) (Worker.CompletedProcess 1)
    (Job.mk "a" "exit 1" 40 "processing" 34 "2024-01-01T00:00:00+00:00"
            "2024-01-01T00:00:00+00:00" None)
    [Job.mk "a" "exit 1" 40 "processing" 34 "2024-01-01T00:00:00+00:00"
            "2024-01-01T00:00:00+00:00" None; job_b] =
  ([Job.mk "a" "exit 1" 40 "pending" 36 "2024-01-01T00:00:00+00:00"
           "1000-06-01T00:00:00.000007+00:00"
           (Some "3178-01-18T07:32:16.000005+00:00"); job_b],
   Job.mk "a" "exit 1" 40 "pending" 36 "2024-01-01T00:00:00+00:00"
          "1000-06-01T00:00:00.000007+00:00"
          (Some "3178-01-18T07:32:16.000005+00:00"),
   Worker.Returns).
Proof. vm_compute. reflexivity. Qed.

Example datetime_add_last_instant :
  datetime_add (datetime_max - 1) 1 = Some datetime_max ∧
  datetime_add datetime_max 1 = None ∧
  datetime_add datetime_min (-1) = None ∧
  isoformat datetime_max = "9999-12-31T23:59:59.999999+00:00" ∧
  isoformat datetime_min = "0001-01-01T00:00:00+00:00".
Proof. repeat split; vm_compute; reflexivity. Qed.

(** Rows of equal [updated_at] are listed in rowid order. *)
Example list_jobs_ties :
  Storage.list_jobs t0 None
    [job_a; job_b; Job.set_updated_at "2024-01-01T00:00:01+00:00" job_c;
     job_c] =
  Ok [Some (Job.set_updated_at "2024-01-01T00:00:01+00:00" job_c);
      Some job_a; Some job_b; Some job_c].
Proof. vm_compute. reflexivity. Qed.

(** * Further properties: lookups and listings of the store *)

Section store_queries.

Implicit Types (tbl : Storage.table) (r job : Job.t).

Lemma filter_id_absent job_id tbl :
  job_id ∉ Job.id <$> tbl → filter (λ r, Job.id r = job_id) tbl = [].
Proof.
  intros Hid. induction tbl as [|r tbl IH]; [done|].
  rewrite fmap_cons, not_elem_of_cons in Hid. destruct Hid as [Hne Hid].
  rewrite filter_cons_False by congruence. by apply IH.
Qed.

Lemma filter_id_present job_id tbl :
  job_id ∈ Job.id <$> tbl →
  ∃ r l, filter (λ r, Job.id r = job_id) tbl = r :: l.
Proof.
  intros (r & -> & Hr)%list_elem_of_fmap.
  assert (r ∈ filter (λ r0, Job.id r0 = Job.id r) tbl) as Hf
    by (by apply list_elem_of_filter).
  destruct (filter _ tbl) as [|r' l]; [by apply not_elem_of_nil in Hf|].
  by exists r', l.
Qed.

End store_queries.

(** X1. After [enqueue_job] of a fresh id, [get_job_by_id] of that id
    returns the job enqueued when its integers are 64-bit, and [None]
    when they are not, nothing having been stored; and whatever the
    outcome of an [enqueue_job], [get_job_by_id] of an id the table
    already had returns what it returned before. *)
Theorem enqueue_job_then_get_job_by_id
    (now : datetime) (job : Job.t) (tbl : Storage.table) :
  (Job.id job ∉ Job.id <$> tbl →
   Storage.get_job_by_id now (Job.id job) (Storage.enqueue_job job tbl).1 =
   Ok (if decide (fits_integer job) then Some job else None)) ∧
  (∀ job_id, job_id ∈ Job.id <$> tbl →
   Storage.get_job_by_id now job_id (Storage.enqueue_job job tbl).1 =
   Storage.get_job_by_id now job_id tbl).
Proof.
  rewrite enqueue_job_eq. unfold Storage.get_job_by_id.
  destruct (Storage.int64 (Job.attempts job) &&
            Storage.int64 (Job.max_retries job)) eqn:E.
  - assert (fits_integer job) as Hfits by (by apply fits_integer_spec).
    split.
    + intros Hid. rewrite bool_decide_eq_false_2 by done.
      rewrite decide_True by done. simpl.
      rewrite filter_app, filter_id_absent by done. simpl.
      rewrite filter_cons_True by done. simpl. apply row_to_job_Some.
    + intros job_id Hid. case_bool_decide; [done|]. simpl.
      rewrite filter_app.
      destruct (filter_id_present job_id tbl Hid) as (r & l & ->). done.
  - assert (¬ fits_integer job) as Hno.
    { intros H%fits_integer_spec. congruence. }
    split; [|done].
    intros Hid. rewrite decide_False by done. simpl.
    by rewrite filter_id_absent.
Qed.

Lemma enqueue_job_then_get_job_by_id_witness :
  Storage.get_job_by_id t0 "b" (Storage.enqueue_job job_b [job_a]).1 =
    Ok (Some job_b) ∧
  Storage.get_job_by_id t0 "b" (Storage.enqueue_job job_b_huge [job_a]).1 =
    Ok None ∧
  Storage.get_job_by_id t0 "a"
    (Storage.enqueue_job (Job.set_state "dead" job_a) [job_a]).1 =
    Ok (Some job_a).
Proof.
  assert (("b" : string) ∉ Job.id <$> [job_a]) as Hb.
  { intros H%list_elem_of_singleton. discriminate H. }
  split; [|split].
  - exact (proj1 (enqueue_job_then_get_job_by_id t0 job_b [job_a]) Hb).
  - exact (proj1 (enqueue_job_then_get_job_by_id t0 job_b_huge [job_a]) Hb).
  - refine (eq_trans
      (proj2 (enqueue_job_then_get_job_by_id t0
                (Job.set_state "dead" job_a) [job_a]) "a" _) _).
    + apply list_elem_of_singleton. reflexivity.
    + reflexivity.
Defined.

(** X2. [get_job_by_id] never raises; it returns [None] exactly when no
    row has the id, and a job it returns is a row of the table with that
    id, the first in rowid order. *)
Theorem get_job_by_id_found_iff_present
    (now : datetime) (job_id : string) (tbl : Storage.table) :
  ∃ found,
    Storage.get_job_by_id now job_id tbl = Ok found ∧
    (found = None ↔ job_id ∉ Job.id <$> tbl) ∧
    (∀ job, found = Some job →
       Job.id job = job_id ∧
       ∃ before after, tbl = before ++ job :: after ∧
                       job_id ∉ Job.id <$> before).
Proof.
  unfold Storage.get_job_by_id. rewrite row_to_job_ok. eexists.
  split; [done|]. split.
  - split.
    + intros Hh Hid. destruct (filter_id_present job_id tbl Hid)
        as (r & l & Hf). by rewrite Hf in Hh.
    + intros Hid. by rewrite filter_id_absent.
  - intros job Hh. induction tbl as [|r tbl IH]; [done|].
    destruct (decide (Job.id r = job_id)) as [Hr|Hr].
    + rewrite filter_cons_True in Hh by done. simpl in Hh.
      injection Hh as ->. split; [done|].
      exists [], tbl. split; [done|]. apply not_elem_of_nil.
    + rewrite filter_cons_False in Hh by done.
      destruct (IH Hh) as (Hid & before & after & -> & Hb).
      split; [done|]. exists (r :: before), after. split; [done|].
      rewrite fmap_cons, not_elem_of_cons. split; [congruence|done].
Qed.

Section listings.

Implicit Types (tbl : Storage.table) (r job : Job.t).

Lemma rows_to_jobs_ok now (rows : list Job.t) :
  Storage.rows_to_jobs now rows = Ok (Some <$> rows).
Proof.
  induction rows as [|r rows IH]; [done|].
  change (Storage.rows_to_jobs now (r :: rows)) with
    (job ← Storage.row_to_job now (Some r);
     jobs ← Storage.rows_to_jobs now rows;
     Ok (job :: jobs)).
  by rewrite row_to_job_Some, IH.
Qed.

Lemma insert_by_updated_at_desc_perm r (sorted : list Job.t) :
  Storage.insert_by_updated_at_desc r sorted ≡ₚ r :: sorted.
Proof.
  induction sorted as [|r0 sorted IH]; [reflexivity|].
  cbn [Storage.insert_by_updated_at_desc].
  destruct (String.leb _ _); [reflexivity|].
  rewrite IH. apply Permutation_swap.
Qed.

Lemma order_by_updated_at_desc_perm (rows : list Job.t) :
  Storage.order_by_updated_at_desc rows ≡ₚ rows.
Proof.
  unfold Storage.order_by_updated_at_desc.
  induction rows as [|r rows IH]; [reflexivity|].
  cbn [foldr]. rewrite insert_by_updated_at_desc_perm.
  by apply Permutation_skip.
Qed.

Lemma insert_by_updated_at_desc_sorted r (sorted : list Job.t) :
  newest_first sorted →
  newest_first (Storage.insert_by_updated_at_desc r sorted).
Proof.
  unfold newest_first.
  induction 1 as [|r0 sorted Hsorted IH Hr0].
  - apply SSorted_cons; [apply SSorted_nil|apply Forall_nil_2].
  - cbn [Storage.insert_by_updated_at_desc].
    destruct (String.leb (Job.updated_at r0) (Job.updated_at r)) eqn:Hle.
    + assert ((Job.updated_at r0 ≤ Job.updated_at r)%string) as Hle'
        by (unfold String.le; by rewrite Hle).
      apply SSorted_cons; [by apply SSorted_cons|].
      apply Forall_cons. split; [exact Hle'|].
      eapply Forall_impl; [exact Hr0|]. intros x Hx.
      by transitivity (Job.updated_at r0).
    + apply SSorted_cons; [exact IH|].
      rewrite insert_by_updated_at_desc_perm.
      apply Forall_cons. split; [|exact Hr0].
      destruct (total String.le (Job.updated_at r) (Job.updated_at r0))
        as [?|Hc]; [done|].
      unfold String.le in Hc. by rewrite Hle in Hc.
Qed.

Lemma order_by_updated_at_desc_sorted (rows : list Job.t) :
  newest_first (Storage.order_by_updated_at_desc rows).
Proof.
  unfold Storage.order_by_updated_at_desc.
  induction rows as [|r rows IH]; [apply SSorted_nil|].
  cbn [foldr]. by apply insert_by_updated_at_desc_sorted.
Qed.

(** The table [dlq retry] returns on a dead row. *)
Lemma retry_dead_eq now now_upd job_id tbl r :
  distinct_ids tbl → r ∈ tbl → Job.id r = job_id → Job.state r = "dead" →
  ∃ echo,
    Cli.retry now now_upd job_id tbl =
    Ok (Storage.update_where_id job_id
          (λ r0, requeued (isoformat now_upd) r0) tbl, echo).
Proof.
  intros Hnd Hr Hid Hst. unfold Cli.retry.
  rewrite (get_job_by_id_present now job_id tbl r) by done. simpl.
  rewrite bool_decide_eq_false_2 by (by intros ?). simpl.
  eexists. rewrite Hid. reflexivity.
Qed.

End listings.

(** X3. [list_jobs] never raises. It returns the rows in the state asked
    for, or all rows when no filter or the empty string is given, each
    exactly once, the most recently updated first. *)
Theorem list_jobs_newest_first
    (now : datetime) (state_filter : option string) (tbl : Storage.table) :
  ∃ jobs,
    Storage.list_jobs now state_filter tbl = Ok (Some <$> jobs) ∧
    newest_first jobs ∧
    jobs ≡ₚ match state_filter with
            | Some state =>
                if decide (state = "") then tbl
                else filter (λ r, Job.state r = state) tbl
            | None => tbl
            end.
Proof.
  unfold Storage.list_jobs.
  destruct state_filter as [state|].
  - case_bool_decide; case_decide; try done;
      eexists; (split; [apply rows_to_jobs_ok|]);
      (split; [apply order_by_updated_at_desc_sorted
              |apply order_by_updated_at_desc_perm]).
  - eexists. split; [apply rows_to_jobs_ok|].
    split; [apply order_by_updated_at_desc_sorted
           |apply order_by_updated_at_desc_perm].
Qed.

(** X4. After [dlq retry] of a dead job, in a table of distinct ids, the
    listing of dead jobs has no job of that id and the listing of pending
    jobs has the job as requeued. *)
Theorem retry_moves_job_from_dead_to_pending_listing
    (now now_upd : datetime) (job_id : string) (tbl : Storage.table)
    (r : Job.t) :
  distinct_ids tbl → r ∈ tbl → Job.id r = job_id → Job.state r = "dead" →
  ∃ tbl' echo dead pending,
    Cli.retry now now_upd job_id tbl = Ok (tbl', echo) ∧
    Storage.list_jobs now (Some "dead") tbl' = Ok (Some <$> dead) ∧
    (∀ j, j ∈ dead → Job.id j ≠ job_id) ∧
    Storage.list_jobs now (Some "pending") tbl' = Ok (Some <$> pending) ∧
    requeued (isoformat now_upd) r ∈ pending.
Proof.
  intros Hnd Hr Hid Hst.
  destruct (retry_dead_eq now now_upd job_id tbl r Hnd Hr Hid Hst)
    as (echo & Heq).
  set (tbl' := Storage.update_where_id _ _ _) in Heq.
  exists tbl', echo,
    (Storage.order_by_updated_at_desc
       (filter (λ r0, Job.state r0 = "dead") tbl')),
    (Storage.order_by_updated_at_desc
       (filter (λ r0, Job.state r0 = "pending") tbl')).
  split; [done|]. split; [apply rows_to_jobs_ok|]. split; [|split].
  - intros j Hj. rewrite order_by_updated_at_desc_perm in Hj.
    apply list_elem_of_filter in Hj as [Hdead Hj].
    apply update_where_id_elem in Hj as (r0 & Hr0 & ->).
    case_bool_decide; [discriminate|done].
  - apply rows_to_jobs_ok.
  - rewrite order_by_updated_at_desc_perm. apply list_elem_of_filter.
    split; [done|]. apply update_where_id_elem. exists r.
    split; [done|]. by rewrite bool_decide_eq_true_2.
Qed.

Lemma retry_moves_job_from_dead_to_pending_listing_witness :
  ∃ tbl' echo dead pending,
    Cli.retry t0 t0 "a" [job_a_dead; job_b] = Ok (tbl', echo) ∧
    Storage.list_jobs t0 (Some "dead") tbl' = Ok (Some <$> dead) ∧
    (∀ j, j ∈ dead → Job.id j ≠ "a") ∧
    Storage.list_jobs t0 (Some "pending") tbl' = Ok (Some <$> pending) ∧
    requeued (isoformat t0) job_a_dead ∈ pending.
Proof.
  refine (retry_moves_job_from_dead_to_pending_listing t0 t0 "a"
            [job_a_dead; job_b] job_a_dead _ (list_elem_of_here _ _)
            eq_refl eq_refl).
  unfold distinct_ids. simpl. apply NoDup_cons. split.
  - intros H%list_elem_of_singleton. discriminate H.
  - apply NoDup_singleton.
Defined.

Lemma get_job_state_counts_lookup (tbl : Storage.table) (state : string) :
  Storage.get_job_state_counts tbl !! state =
  if decide (count_state state tbl = 0) then None
  else Some (count_state state tbl).
Proof.
  unfold count_state. induction tbl as [|r tbl IH]; [done|].
  simpl. destruct (decide (Job.state r = state)) as [<-|Hne].
  - rewrite lookup_insert_eq, IH, filter_cons_True by done. simpl.
    repeat case_decide; try lia; f_equal; simpl; lia.
  - rewrite lookup_insert_ne, IH, filter_cons_False by done. done.
Qed.

(** X5. The dictionary of [get_job_state_counts] has an entry for a state
    exactly when some row is in it, the entry being the number of such
    rows; read with default 0 it is the number of rows in any state. *)
Theorem get_job_state_counts_counts (tbl : Storage.table) (state : string) :
  let counts := Storage.get_job_state_counts tbl in
  (counts !! state = None ↔ ∀ r, r ∈ tbl → Job.state r ≠ state) ∧
  (∀ n, counts !! state = Some n →
        n = count_state state tbl ∧ 0 < n) ∧
  default 0 (counts !! state) = count_state state tbl.
Proof.
  intros counts. unfold counts. rewrite get_job_state_counts_lookup.
  assert (count_state state tbl = 0 ↔
          ∀ r, r ∈ tbl → Job.state r ≠ state) as Hzero.
  { unfold count_state. split.
    - intros H r Hr Hst.
      assert (r ∈ filter (λ r, Job.state r = state) tbl) as Hf
        by (by apply list_elem_of_filter).
      destruct (filter _ tbl); [by apply not_elem_of_nil in Hf|].
      simpl in H. lia.
    - intros H. destruct (filter _ tbl) as [|r l] eqn:E; [done|].
      assert (r ∈ filter (λ r, Job.state r = state) tbl) as Hf
        by (rewrite E; left).
      apply list_elem_of_filter in Hf as [? ?]. by destruct (H r). }
  assert (0 <= count_state state tbl) by (unfold count_state; lia).
  case_decide as Hc; simpl.
  - split; [by rewrite <- Hzero|]. split; [done|]. done.
  - split; [|split; [|done]].
    + split; [done|]. intros H'. by apply Hzero in H'.
    + intros n [= <-]. split; [done|lia].
Qed.

(** * Further properties: the configuration *)

Section config.

Implicit Types (cfg : Config.table) (key value : string).

Lemma config_filter_other key key' cfg :
  key' ≠ key →
  filter (λ row : string * string, row.1 = key')
    (filter (λ row : string * string, row.1 ≠ key) cfg) =
  filter (λ row : string * string, row.1 = key') cfg.
Proof.
  intros Hne. induction cfg as [|[k v] cfg IH]; [done|].
  destruct (decide (k = key)) as [->|Hk].
  - rewrite (filter_cons_False (λ row : string * string, row.1 ≠ key))
      by (simpl; by intros ?).
    rewrite (filter_cons_False (λ row : string * string, row.1 = key'))
      by (simpl; congruence).
    done.
  - rewrite (filter_cons_True (λ row : string * string, row.1 ≠ key))
      by done.
    destruct (decide (k = key')) as [->|Hk'].
    + rewrite !(filter_cons_True (λ row : string * string, row.1 = key'))
        by done. by rewrite IH.
    + rewrite !(filter_cons_False (λ row : string * string, row.1 = key'))
        by done. done.
Qed.

Lemma config_filter_same key cfg :
  filter (λ row : string * string, row.1 = key)
    (filter (λ row : string * string, row.1 ≠ key) cfg) = [].
Proof.
  induction cfg as [|[k v] cfg IH]; [done|].
  destruct (decide (k = key)) as [->|Hk].
  - by rewrite (filter_cons_False (λ row : string * string, row.1 ≠ key))
      by (simpl; by intros ?).
  - rewrite (filter_cons_True (λ row : string * string, row.1 ≠ key))
      by done.
    by rewrite (filter_cons_False (λ row : string * string, row.1 = key))
      by done.
Qed.

Lemma get_config_set_config key key' value default cfg :
  Config.get_config key' default (Config.set_config key value cfg) =
  if decide (key' = key) then Some value
  else Config.get_config key' default cfg.
Proof.
  unfold Config.get_config, Config.set_config. rewrite filter_app.
  case_decide as E.
  - subst key'. rewrite config_filter_same. simpl.
    by rewrite filter_cons_True by done.
  - rewrite config_filter_other by done.
    rewrite (filter_cons_False _ (key, value)) by (simpl; congruence).
    rewrite filter_nil. by rewrite app_nil_r.
Qed.

Lemma set_config_keys key value cfg :
  NoDup cfg.*1 → NoDup (Config.set_config key value cfg).*1.
Proof.
  intros Hnd. unfold Config.set_config. rewrite fmap_app. apply NoDup_app.
  split; [|split].
  - induction cfg as [|[k v] cfg IH]; [constructor|].
    rewrite fmap_cons in Hnd. apply NoDup_cons in Hnd as [Hk Hnd].
    destruct (decide (k = key)) as [->|Hne].
    + rewrite filter_cons_False by (simpl; by intros ?). by apply IH.
    + rewrite filter_cons_True by done. rewrite fmap_cons.
      apply NoDup_cons. split; [|by apply IH].
      intros (row & Hrow & Hin)%list_elem_of_fmap.
      apply list_elem_of_filter in Hin as [_ Hin]. apply Hk.
      apply list_elem_of_fmap. by exists row.
  - intros k (row & -> & Hin)%list_elem_of_fmap.
    apply list_elem_of_filter in Hin as [Hne _].
    intros Heq%list_elem_of_singleton. done.
  - apply NoDup_singleton.
Qed.

Lemma get_all_config_lookup cfg (d : gmap string string) key :
  NoDup cfg.*1 →
  foldl (λ d row, <[row.1 := row.2]> d) d cfg !! key =
  match head (filter (λ row : string * string, row.1 = key) cfg) with
  | Some row => Some row.2
  | None => d !! key
  end.
Proof.
  revert d. induction cfg as [|[k v] cfg IH]; intros d Hnd; [done|].
  rewrite fmap_cons in Hnd. apply NoDup_cons in Hnd as [Hk Hnd].
  simpl. rewrite IH by done.
  destruct (decide (k = key)) as [->|Hne].
  - rewrite filter_cons_True by done. simpl.
    assert (filter (λ row : string * string, row.1 = key) cfg = []) as ->.
    { destruct (filter _ cfg) as [|row l] eqn:E; [done|]. exfalso.
      assert (row ∈ filter (λ row : string * string, row.1 = key) cfg)
        as Hin by (rewrite E; left).
      apply list_elem_of_filter in Hin as [<- Hin]. apply Hk.
      apply list_elem_of_fmap. by exists row. }
    simpl. by rewrite lookup_insert_eq.
  - rewrite filter_cons_False by done.
    destruct (head _); [done|]. by rewrite lookup_insert_ne.
Qed.

End config.

(** X6. [get_config] after [set_config]: the key just set reads as the
    value set, whatever the default and whatever it held before; every
    other key reads as before. *)
Theorem get_config_after_set_config
    (key key' value : string) (default : option string)
    (cfg : Config.table) :
  Config.get_config key default (Config.set_config key value cfg) =
    Some value ∧
  (key' ≠ key →
   Config.get_config key' default (Config.set_config key value cfg) =
   Config.get_config key' default cfg).
Proof.
  rewrite !get_config_set_config. split.
  - by rewrite decide_True.
  - intros Hne. by rewrite decide_False.
Qed.

Lemma get_config_after_set_config_witness :
  Config.get_config "retry_base" (Some "2")
    (Config.set_config "retry_base" "3" [("retry_base", "5"); ("x", "")]) =
    Some "3" ∧
  Config.get_config "x" (Some "2")
    (Config.set_config "retry_base" "3" [("retry_base", "5"); ("x", "")]) =
    Some "".
Proof.
  pose proof (get_config_after_set_config "retry_base" "x" "3" (Some "2")
                [("retry_base", "5"); ("x", "")]) as [H1 H2].
  split; [exact H1|].
  refine (eq_trans (H2 _) _); [discriminate|reflexivity].
Defined.

(** X7. [set_config] keeps the keys of the table distinct, and on a table
    of distinct keys the dictionary of [get_all_config] holds for every
    key what [get_config] returns for it. *)
Theorem get_all_config_agrees_with_get_config
    (key value : string) (cfg : Config.table) :
  NoDup cfg.*1 →
  NoDup (Config.set_config key value cfg).*1 ∧
  ∀ k, Config.get_all_config cfg !! k = Config.get_config k None cfg.
Proof.
  intros Hnd. split; [by apply set_config_keys|].
  intros k. unfold Config.get_all_config, Config.get_config.
  rewrite get_all_config_lookup by done. by destruct (head _).
Qed.

Lemma get_all_config_agrees_with_get_config_witness :
  NoDup [("retry_base", "5"); ("x", "")].*1 ∧
  Config.get_all_config [("retry_base", "5"); ("x", "")] !! "x" =
  Config.get_config "x" None [("retry_base", "5"); ("x", "")].
Proof.
  assert (NoDup [("retry_base", "5"); ("x", "")].*1) as Hnd.
  { simpl. apply NoDup_cons. split; [|apply NoDup_singleton].
    intros H%list_elem_of_singleton. discriminate H. }
  split; [exact Hnd|].
  exact (proj2 (get_all_config_agrees_with_get_config "y" "1" _ Hnd) "x").
Defined.

Section config_set.

Variable lower : string → string.
Variable int : string → option Z.

Lemma config_after_retry_base commands :
  Forall (λ row : string * string,
            row.1 = "retry_base" → is_Some (int row.2))
         (config_after lower int commands).
Proof.
  unfold config_after.
  assert (∀ cfg,
    Forall (λ row : string * string,
              row.1 = "retry_base" → is_Some (int row.2)) cfg →
    Forall (λ row : string * string,
              row.1 = "retry_base" → is_Some (int row.2))
      (foldl (λ cfg kv, (Cli.config_set lower int kv.1 kv.2 cfg).1)
             cfg commands)) as H; [|apply H; constructor].
  induction commands as [|[k v] commands IH]; intros cfg Hcfg; [done|].
  simpl. apply IH. unfold Cli.config_set.
  assert (is_Some (int v) ∨ lower k ≠ "retry_base" →
          Forall (λ row : string * string,
                    row.1 = "retry_base" → is_Some (int row.2))
                 (Config.set_config (lower k) v cfg)) as Hset.
  { intros Hv. unfold Config.set_config. apply Forall_app. split.
    - rewrite Forall_forall in Hcfg |- *.
      intros row [_ Hin]%list_elem_of_filter. by apply Hcfg.
    - apply Forall_singleton. simpl. intros Hk.
      destruct Hv as [?|?]; done. }
  case_bool_decide as Hk.
  - destruct (int v) eqn:Hv; simpl; [|done]. apply Hset. left.
    by eexists.
  - simpl. apply Hset. right. intros Hrb. apply Hk. rewrite Hrb.
    apply elem_of_cons. right. apply list_elem_of_singleton. done.
Qed.

End config_set.

(** X8. A [retry_base] that [config set] accepts is the one a worker
    starts with, under any spelling of the key that lowers to
    [retry_base]; a value that [int] rejects leaves the table as it was;
    and after any sequence of [config set] commands on an empty table a
    worker's [__init__] does not raise, [int] accepting the default. *)
Theorem config_set_retry_base_reaches_worker
    (lower : string → string) (int : string → option Z) :
  (∀ key value n cfg,
     lower key = "retry_base" → int value = Some n →
     Worker.init int (Cli.config_set lower int key value cfg).1 = Some n) ∧
  (∀ key value cfg,
     lower key = "retry_base" → int value = None →
     (Cli.config_set lower int key value cfg).1 = cfg) ∧
  (∀ commands,
     is_Some (int "2") →
     is_Some (Worker.init int (config_after lower int commands))).
Proof.
  split; [|split].
  - intros key value n cfg Hk Hv. unfold Cli.config_set, Worker.init.
    rewrite Hk, Hv. simpl.
    rewrite get_config_set_config, decide_True by done. done.
  - intros key value cfg Hk Hv. unfold Cli.config_set.
    by rewrite Hk, Hv.
  - intros commands Hdef. unfold Worker.init, Config.get_config.
    pose proof (config_after_retry_base lower int commands) as Hall.
    rewrite Forall_forall in Hall.
    destruct (filter _ (config_after lower int commands))
      as [|row l] eqn:E; simpl; [done|].
    assert (row ∈ filter (λ row : string * string, row.1 = "retry_base")
                    (config_after lower int commands)) as Hin
      by (rewrite E; left).
    apply list_elem_of_filter in Hin as [Hk Hin]. by apply Hall.
Qed.

Lemma config_set_retry_base_reaches_worker_witness :
  Worker.init decimal_int
    (Cli.config_set ascii_lower decimal_int "Retry_Base" "3"
       [("retry_base", "5")]).1 = Some 3 ∧
  (Cli.config_set ascii_lower decimal_int "RETRY_BASE" "three"
     [("retry_base", "5")]).1 = [("retry_base", "5")] ∧
  is_Some (Worker.init decimal_int
             (config_after ascii_lower decimal_int
                [("max_retries", "7"); ("Retry_Base", "x"); ("k", "v")])).
Proof.
  pose proof (config_set_retry_base_reaches_worker ascii_lower decimal_int)
    as (H1 & H2 & H3).
  split; [|split].
  - exact (H1 "Retry_Base" "3" 3 [("retry_base", "5")] eq_refl eq_refl).
  - exact (H2 "RETRY_BASE" "three" [("retry_base", "5")] eq_refl eq_refl).
  - refine (H3 _ _). exists 2. reflexivity.
Defined.

(** * Further properties: the enqueue command *)

(** X9. [enqueue] on a JSON object whose [id] and [command], where
    present, are strings and whose [max_retries], where present, is an
    integer. Without [id] or without [command] it echoes the error and
    returns the table as it was. With both it never raises: when
    [max_retries] (3 if absent) is not a 64-bit integer it echoes the
    database error, and when a row has the id it echoes that the job
    exists, the table being as it was in both cases; otherwise the table
    has one more row, at the end, with the [id] and [command] of the
    object, that [max_retries], state pending, attempts 0, both timestamps
    now and [retry_after_time] NULL. *)
Theorem enqueue_data_adds_only_fresh_pending_rows
    (now : datetime) (id command : option string) (max_retries : option Z)
    (tbl : Storage.table) :
  (id = None ∨ command = None →
   Cli.enqueue_data now id command max_retries tbl =
   Ok (tbl, "Error: Job data must contain 'id' and 'command'.")) ∧
  (∀ i c, id = Some i → command = Some c →
     let m := default 3 max_retries in
     Cli.enqueue_data now id command max_retries tbl =
     Ok (if Storage.int64 m then
           if decide (i ∈ Job.id <$> tbl) then
             (tbl, "Error: Job with ID " +:+ i +:+ " already exists.")
           else
             (tbl ++ [Job.mk i c m "pending" 0
                        (isoformat now) (isoformat now) None],
              "Job " +:+ i +:+ " added to queue in 'pending' state.")
         else
           (tbl, "Error: Database error during enqueue: Python int too large to convert to SQLite INTEGER"))).
Proof.
  split.
  - intros [-> | ->]; [reflexivity|]. by destruct id.
  - intros i c -> -> m. subst m.
    unfold Cli.enqueue_data, Cli.enqueue.
    unfold Job.init, Job.get_str, Job.get_int, Job.get_opt_str.
    rewrite !lookup_empty. simpl. rewrite enqueue_job_eq. simpl.
    destruct (Storage.int64 (default 3 max_retries)); [|reflexivity].
    case_bool_decide; case_decide; try contradiction; reflexivity.
Qed.

Lemma enqueue_data_adds_only_fresh_pending_rows_witness :
  Cli.enqueue_data t0 None (Some "true") None [job_a] =
    Ok ([job_a], "Error: Job data must contain 'id' and 'command'.") ∧
  Cli.enqueue_data t0 (Some "b") (Some "true") None [job_a] =
    Ok ([job_a; job_b], "Job b added to queue in 'pending' state.") ∧
  Cli.enqueue_data t0 (Some "a") (Some "true") (Some 1) [job_a] =
    Ok ([job_a], "Error: Job with ID a already exists.") ∧
  Cli.enqueue_data t0 (Some "b") (Some "true") (Some (2 ^ 63)) [job_a] =
    Ok ([job_a], "Error: Database error during enqueue: Python int too large to convert to SQLite INTEGER").
Proof.
  split; [|split; [|split]].
  - refine (proj1 (enqueue_data_adds_only_fresh_pending_rows t0
                     None (Some "true") None [job_a]) _).
    left. reflexivity.
  - exact (proj2 (enqueue_data_adds_only_fresh_pending_rows t0
                    (Some "b") (Some "true") None [job_a])
             "b" "true" eq_refl eq_refl).
  - exact (proj2 (enqueue_data_adds_only_fresh_pending_rows t0
                    (Some "a") (Some "true") (Some 1) [job_a])
             "a" "true" eq_refl eq_refl).
  - exact (proj2 (enqueue_data_adds_only_fresh_pending_rows t0
                    (Some "b") (Some "true") (Some (2 ^ 63)) [job_a])
             "b" "true" eq_refl eq_refl).
Defined.

(** * Further properties: the life cycle of a row *)

Section steps.

Variable retry_base : Z.

Implicit Types (tbl : Storage.table) (r job : Job.t) (s : Queue.sys).

Lemma pick_job_for_worker_Some now tbl tbl' job :
  Storage.pick_job_for_worker now tbl = (tbl', Some job) →
  ∃ row, row ∈ tbl ∧ Job.state row = "pending" ∧
         job = claimed (isoformat now) row ∧
         tbl' = Storage.update_where_id (Job.id row)
                  (claimed (isoformat now)) tbl.
Proof.
  rewrite pick_job_for_worker_eq.
  destruct (Storage.order_by_created_at_limit_1 _) as [row|] eqn:E;
    [|discriminate].
  intros [= <- <-]. exists row.
  apply order_by_created_at_Some in E as [Hin _].
  apply list_elem_of_filter in Hin as [[Hst _]%ready_eligible Hin].
  done.
Qed.

Lemma cli_retry_eq now now_upd job_id tbl tbl' echo :
  Cli.retry now now_upd job_id tbl = Ok (tbl', echo) →
  tbl' = tbl ∨
  ∃ row, row ∈ tbl ∧ Job.id row = job_id ∧ Job.state row = "dead" ∧
         tbl' = Storage.update_where_id job_id
                  (requeued (isoformat now_upd)) tbl.
Proof.
  unfold Cli.retry, Storage.get_job_by_id. rewrite row_to_job_ok. simpl.
  destruct (filter _ tbl) as [|row l] eqn:E; simpl;
    [intros [= <- _]; by left|].
  assert (row ∈ filter (λ r, Job.id r = job_id) tbl) as Hin
    by (rewrite E; left).
  apply list_elem_of_filter in Hin as [Hid Hin].
  case_bool_decide as Hst; simpl; [intros [= <- _]; by left|].
  intros [= <- _]. right. exists row.
  split; [done|]. split; [done|]. split; [|by rewrite Hid].
  by destruct (decide (Job.state row = "dead")).
Qed.

Lemma update_where_id_other id set tbl r :
  r ∈ tbl → Job.id r ≠ id → r ∈ Storage.update_where_id id set tbl.
Proof.
  intros Hr Hid. apply update_where_id_elem. exists r.
  split; [done|]. by rewrite bool_decide_eq_false_2.
Qed.

Lemma held_is_processing s job :
  inv s → job ∈ Queue.held s → Job.state job = "processing".
Proof.
  intros (_ & _ & Hheld) Hj. rewrite Forall_forall in Hheld.
  by destruct (Hheld job Hj).
Qed.

Lemma inv_held_init : inv_held Queue.init.
Proof. split; [apply NoDup_nil_2|]. split; apply Forall_nil_2. Qed.

Lemma inv_held_step s e s' :
  inv s → inv_held s → Queue.step retry_base s e s' → inv_held s'.
Proof.
  intros Hinv (Hnd & Hin & Hst) Hstep.
  pose proof Hinv as (Hids & _ & _).
  rewrite Forall_forall in Hin. rewrite Forall_forall in Hst.
  unfold inv_held.
  destruct Hstep
    as [s now id command mr tbl' echo _ Heq
       |s now tbl' job Heq
       |s now now_retry now_upd outcome job h1 h2 tbl' job' ended Hh Heq
       |s now now_upd job_id tbl' echo Heq]; simpl in *.
  - apply cli_enqueue_eq in Heq as [-> | [_ ->]];
      [by rewrite !Forall_forall|].
    split; [done|]. split; rewrite Forall_forall.
    + intros j Hj. apply elem_of_app. left. by apply Hin.
    + intros r [Hr| ->%list_elem_of_singleton]%elem_of_app;
        [by apply Hst|]. simpl. left.
  - apply pick_job_for_worker_Some in Heq
      as (row & Hrow & Hpend & -> & ->).
    assert (∀ j, j ∈ Queue.held s → Job.id j ≠ Job.id row) as Hfresh.
    { intros j Hj Hid.
      assert (j = row) as ->
        by (eapply distinct_ids_eq; eauto).
      pose proof (held_is_processing s row Hinv Hj). congruence. }
    split; [|split].
    + simpl. apply NoDup_cons. split; [|done].
      intros (j & Hid & Hj)%list_elem_of_fmap. by apply (Hfresh j).
    + apply Forall_cons. split.
      * apply update_where_id_elem. exists row. split; [done|].
        by rewrite bool_decide_eq_true_2.
      * rewrite Forall_forall. intros j Hj.
        apply update_where_id_other; [by apply Hin|by apply Hfresh].
    + rewrite Forall_forall.
      intros r' (r & Hr & ->)%update_where_id_elem.
      case_bool_decide; [|by apply Hst]. simpl. right. left.
  - destruct (process_job_cases retry_base now now_retry now_upd outcome job
                (Queue.store s)) as (j & e & Heq' & _ & _ & Hcase).
    rewrite Heq' in Heq. injection Heq as <- <- <-.
    rewrite Hh in Hnd. rewrite fmap_app, fmap_cons in Hnd.
    apply NoDup_app in Hnd as (Hn1 & Hdisj & Hn2).
    apply NoDup_cons in Hn2 as [Hjob Hn2].
    assert (∀ j0, j0 ∈ h1 ++ h2 → j0 ∈ Queue.store s) as Hin'.
    { intros j0 Hj0. apply Hin. rewrite Hh. apply elem_of_app.
      apply elem_of_app in Hj0 as [?|?]; [by left|right; by right]. }
    split; [|split].
    + rewrite fmap_app. apply NoDup_app. split; [done|]. split; [|done].
      intros x Hx Hx2. apply (Hdisj x Hx). by right.
    + rewrite Forall_forall. intros j0 Hj0.
      destruct e; [|by apply Hin'].
      apply update_where_id_other; [by apply Hin'|].
      intros Hid. apply elem_of_app in Hj0 as [Hj0|Hj0].
      * apply (Hdisj (Job.id j0)); [apply list_elem_of_fmap; by exists j0|].
        rewrite Hid. left.
      * apply Hjob. rewrite <- Hid. apply list_elem_of_fmap. by exists j0.
    + rewrite Forall_forall. destruct e; [|exact Hst].
      intros r' (r & Hr & ->)%update_where_id_elem.
      case_bool_decide; [|by apply Hst]. simpl. unfold known_states.
      destruct Hcase as [(_ & _ & -> & _)
                        |(_ & _ & [(_ & -> & _)
                                  |[(_ & -> & _)|(He & _)]])];
        [| | |discriminate He]; set_solver.
  - apply cli_retry_eq in Heq as [->|(row & Hrow & Hid & Hdead & ->)];
      [by rewrite !Forall_forall|].
    split; [done|]. split; rewrite Forall_forall.
    + intros j Hj. apply update_where_id_other; [by apply Hin|].
      intros Hid'.
      assert (j = row) as ->
        by (eapply distinct_ids_eq; eauto; congruence).
      pose proof (held_is_processing s row Hinv Hj). congruence.
    + intros r' (r & Hr & ->)%update_where_id_elem.
      case_bool_decide; [|by apply Hst]. simpl. left.
Qed.

Lemma reachable_inv_held s : Queue.reachable retry_base s → inv_held s.
Proof.
  induction 1 as [|s e s' Hs IH Hstep]; [apply inv_held_init|].
  eapply inv_held_step; eauto. by apply reachable_inv in Hs.
Qed.

End steps.

(** X10. The claim is not exclusive between connections.
    [pick_job_for_worker] is its SELECT followed by [mark_processing] of
    the row found; and when two connections have both run the SELECT on
    the same table and found the same row, the UPDATE of each succeeds
    whatever the other has written: both callers get a job of that id in
    state processing, and the row keeps the [updated_at] of the later
    UPDATE. *)
Theorem two_connections_claim_the_same_job
    (now1 now2 : datetime) (tbl : Storage.table) (row : Job.t) :
  Storage.select_job (isoformat now1) tbl = Some row →
  Storage.select_job (isoformat now2) tbl = Some row →
  Storage.pick_job_for_worker now1 tbl =
    Storage.mark_processing now1 row tbl ∧
  let '(tbl1, job1) := Storage.mark_processing now1 row tbl in
  let '(tbl2, job2) := Storage.mark_processing now2 row tbl1 in
  job1 = Some (claimed (isoformat now1) row) ∧
  job2 = Some (claimed (isoformat now2) row) ∧
  (∃ r, r ∈ tbl ∧ Job.id r = Job.id row ∧ Job.state r = "pending") ∧
  ∀ (i : nat) r, tbl !! i = Some r →
    tbl1 !! i = Some (if decide (Job.id r = Job.id row)
                      then claimed (isoformat now1) r else r) ∧
    tbl2 !! i = Some (if decide (Job.id r = Job.id row)
                      then claimed (isoformat now2) r else r).
Proof.
  intros Hsel1 _. split.
  - unfold Storage.pick_job_for_worker.
    change (Storage.order_by_created_at_limit_1 _)
      with (Storage.select_job (isoformat now1) tbl).
    rewrite Hsel1. reflexivity.
  - unfold Storage.mark_processing. rewrite !row_to_job_Some.
    split; [reflexivity|]. split; [reflexivity|]. split.
    + apply order_by_created_at_Some in Hsel1 as [Hin _].
      apply list_elem_of_filter in Hin as [[Hst _]%ready_eligible Hin].
      by exists row.
    + intros i r Hr. rewrite !update_where_id_lookup, Hr.
      cbn [fmap option_fmap option_map Job.id Job.set_state
           Job.set_updated_at Job.state Job.updated_at].
      split; case_bool_decide as E; case_decide; try contradiction;
        reflexivity.
Qed.

Lemma two_connections_claim_the_same_job_witness :
  Storage.select_job (isoformat (t0 + 1000000)) [job_a; job_b] = Some job_a ∧
  Storage.select_job (isoformat (t0 + 1000001)) [job_a; job_b] = Some job_a ∧
  (Storage.mark_processing (t0 + 1000000) job_a [job_a; job_b]).2 =
    Some job_a_claimed ∧
  (Storage.mark_processing (t0 + 1000001) job_a
     (Storage.mark_processing (t0 + 1000000) job_a [job_a; job_b]).1).2 =
    Some (Job.set_updated_at "2024-01-01T00:00:01.000001+00:00" job_a_claimed).
Proof.
  assert (Storage.select_job (isoformat (t0 + 1000000)) [job_a; job_b]
          = Some job_a) as H1 by (vm_compute; reflexivity).
  assert (Storage.select_job (isoformat (t0 + 1000001)) [job_a; job_b]
          = Some job_a) as H2 by (vm_compute; reflexivity).
  pose proof (two_connections_claim_the_same_job (t0 + 1000000)
                (t0 + 1000001) [job_a; job_b] job_a H1 H2) as [_ H].
  split; [exact H1|]. split; [exact H2|].
  vm_compute. split; reflexivity.
Defined.

(** X11. How a step changes a row, from any reachable state, the
    operations being run one at a time. The row stays at its place with its [id], [command], [max_retries] and
    [created_at]. It is otherwise unchanged, unless it is pending and the
    step claims it (it becomes processing, attempts and
    [retry_after_time] kept), or it is processing and the step handles
    its run (completed with its attempts on return code 0; on a failure
    dead with exactly [max_retries] attempts, or pending below
    [max_retries], the attempts being one more, or two more when the
    first retry time was no [datetime] and the error was handled as a
    second failure), or it is dead and the step requeues it (pending,
    attempts 0, NULL). A row whose handling is left by the exception,
    and a completed row, are not changed. *)
Theorem row_life_cycle
    (retry_base : Z) (s s' : Queue.sys) (e : Queue.event)
    (i : nat) (r : Job.t) :
  Queue.reachable retry_base s → Queue.step retry_base s e s' →
  Queue.store s !! i = Some r →
  ∃ r',
    Queue.store s' !! i = Some r' ∧
    (Job.id r' = Job.id r ∧ Job.command r' = Job.command r ∧
     Job.max_retries r' = Job.max_retries r ∧
     Job.created_at r' = Job.created_at r) ∧
    (r' = r ∨
     (Job.state r = "pending" ∧ e = Queue.Claim (Job.id r) ∧
      Job.state r' = "processing" ∧ Job.attempts r' = Job.attempts r ∧
      Job.retry_after_time r' = Job.retry_after_time r) ∨
     (Job.state r = "processing" ∧
      ∃ outcome, e = Queue.Process (Job.id r) outcome ∧
        ((outcome = Worker.CompletedProcess 0 ∧
          Job.state r' = "completed" ∧
          Job.attempts r' = Job.attempts r ∧
          Job.retry_after_time r' = None) ∨
         (is_failure outcome ∧
          Job.attempts r < Job.attempts r' <= Job.attempts r + 2 ∧
          ((Job.state r' = "dead" ∧ Job.retry_after_time r' = None ∧
            Job.attempts r' = Job.max_retries r) ∨
           (Job.state r' = "pending" ∧ Job.retry_after_time r' ≠ None ∧
            Job.attempts r' < Job.max_retries r))))) ∨
     (Job.state r = "dead" ∧ e = Queue.Retry (Job.id r) ∧
      Job.state r' = "pending" ∧ Job.attempts r' = 0 ∧
      Job.retry_after_time r' = None)).
Proof.
  intros Hreach Hstep Hi.
  pose proof (reachable_inv retry_base s Hreach) as Hinv.
  pose proof (reachable_inv_held retry_base s Hreach) as (_ & Hin & _).
  pose proof Hinv as (Hids & _ & Hheld).
  rewrite Forall_forall in Hin. rewrite Forall_forall in Hheld.
  assert (r ∈ Queue.store s) as Hr by (by eapply list_elem_of_lookup_2).
  destruct Hstep
    as [s now id command mr tbl' echo _ Heq
       |s now tbl' job Heq
       |s now now_retry now_upd outcome job h1 h2 tbl' job' ended Hh Heq
       |s now now_upd job_id tbl' echo Heq]; simpl in *.
  - exists r. split; [|split; [done|by left]].
    apply cli_enqueue_eq in Heq as [-> | [_ ->]]; [done|].
    rewrite lookup_app_l; [done|]. by eapply lookup_lt_Some.
  - apply pick_job_for_worker_Some in Heq
      as (row & Hrow & Hpend & -> & ->).
    rewrite update_where_id_lookup, Hi. simpl. eexists. split; [done|].
    case_bool_decide as Hid; [|split; [done|by left]].
    assert (r = row) as -> by (eapply distinct_ids_eq; eauto).
    split; [done|]. right. left. done.
  - destruct (process_job_cases retry_base now now_retry now_upd outcome job
                (Queue.store s)) as (j & e & Heq' & _ & _ & Hcase).
    rewrite Heq' in Heq. injection Heq as <- <- <-.
    destruct e; [|exists r; split; [done|]; split; [done|by left]].
    rewrite update_where_id_lookup, Hi. simpl. eexists. split; [done|].
    case_bool_decide as Hid; [|split; [done|by left]].
    assert (job ∈ Queue.held s) as Hj
      by (rewrite Hh; apply elem_of_app; right; left).
    assert (r = job) as ->
      by (eapply distinct_ids_eq; [exact Hids|exact Hr|by apply Hin|exact Hid]).
    destruct (Hheld job Hj) as (Hproc & Hat & _).
    split; [done|]. right. right. left. split; [done|].
    exists outcome. split; [done|]. simpl.
    destruct Hcase as [(_ & ? & ? & ? & ?)|(? & Hb & Hc)]; [by left|].
    right. split; [done|]. split; [done|].
    destruct Hc as [(_ & ? & ? & ? & ?)|[(_ & ? & ? & ?)|(He & _)]];
      [left|right|discriminate He].
    + split; [done|]. split; [done|]. lia.
    + done.
  - apply cli_retry_eq in Heq as [->|(row & Hrow & Hid & Hdead & ->)].
    + exists r. split; [done|]. split; [done|by left].
    + rewrite update_where_id_lookup, Hi. simpl. eexists. split; [done|].
      case_bool_decide as Hid'; [|split; [done|by left]].
      assert (r = row) as ->
        by (eapply distinct_ids_eq; eauto; congruence).
      split; [done|]. right. right. right. rewrite Hid. done.
Qed.

Lemma row_life_cycle_witness :
  ∃ r',
    Queue.store sys_reclaimed !! 0%nat = Some r' ∧
    Job.state r' = "processing" ∧
    Job.retry_after_time r' = Job.retry_after_time job_a_retrying.
Proof.
  assert (Queue.step 2 sys_retrying (Queue.Claim "a") sys_reclaimed) as Hstep.
  { apply (Queue.step_claim 2 sys_retrying (t0 + 4000000)
             [job_a_reclaimed] job_a_reclaimed). reflexivity. }
  destruct (row_life_cycle 2 sys_retrying sys_reclaimed (Queue.Claim "a")
              0%nat job_a_retrying sys_retrying_reachable Hstep eq_refl)
    as (r' & Hr' & _ & Hcase).
  exists r'. split; [exact Hr'|].
  injection Hr' as <-. split; reflexivity.
Defined.

(** * Further properties: status, the worker loop, a first run *)

Section status.

Implicit Types (tbl : Storage.table).

Lemma count_state_unknown tbl state :
  Forall (λ r, Job.state r ∈ known_states) tbl →
  state ∉ known_states → count_state state tbl = 0.
Proof.
  intros Hall Hst. unfold count_state.
  induction Hall as [|r tbl Hr _ IH]; [done|].
  rewrite filter_cons_False by (intros <-; done). done.
Qed.

Lemma count_state_sum tbl :
  Forall (λ r, Job.state r ∈ known_states) tbl →
  count_state "pending" tbl + count_state "processing" tbl +
  count_state "completed" tbl + count_state "dead" tbl =
  Z.of_nat (length tbl).
Proof.
  unfold count_state. induction 1 as [|r tbl Hr _ IH]; [done|].
  unfold known_states in Hr.
  repeat (apply elem_of_cons in Hr as [Hr|Hr]);
    [..|by apply not_elem_of_nil in Hr];
    repeat (first [rewrite (filter_cons_True _ r) by (by rewrite Hr)
                  |rewrite (filter_cons_False _ r) by (by rewrite Hr)]);
    simpl length; lia.
Qed.

Lemma counts_default tbl state :
  default 0 (Storage.get_job_state_counts tbl !! state) =
  count_state state tbl.
Proof.
  rewrite get_job_state_counts_lookup. by case_decide.
Qed.

End status.

(** X12. In every reachable state the lines that [status] echoes after
    its header give, for pending, processing, completed and dead, the
    number of rows in that state; these four numbers add up to the number
    of rows, and the line for failed, a state no operation writes, shows
    0. *)
Theorem status_accounts_for_every_job (retry_base : Z) (s : Queue.sys) :
  Queue.reachable retry_base s →
  let tbl := Queue.store s in
  tail (Cli.status tbl) =
  ["- Pending: " +:+ pretty (count_state "pending" tbl);
   "- Processing: " +:+ pretty (count_state "processing" tbl);
   "- Completed: " +:+ pretty (count_state "completed" tbl);
   "- Failed: 0";
   "- Dead: " +:+ pretty (count_state "dead" tbl)] ∧
  count_state "pending" tbl + count_state "processing" tbl +
  count_state "completed" tbl + count_state "dead" tbl =
  Z.of_nat (length tbl).
Proof.
  intros (_ & _ & Hknown)%reachable_inv_held tbl. split.
  - unfold Cli.status. simpl tail. simpl fmap.
    rewrite !counts_default.
    rewrite (count_state_unknown tbl "failed" Hknown).
    + reflexivity.
    + unfold known_states. intros H.
      repeat (apply elem_of_cons in H as [H|H]; [discriminate H|]).
      by apply not_elem_of_nil in H.
  - by apply count_state_sum.
Qed.

Lemma status_accounts_for_every_job_witness :
  Queue.reachable 2 sys_dead ∧
  tail (Cli.status (Queue.store sys_dead)) =
  ["- Pending: 0"; "- Processing: 0"; "- Completed: 0"; "- Failed: 0";
   "- Dead: 1"].
Proof.
  split; [exact sys_dead_reachable|].
  exact (proj1 (status_accounts_for_every_job 2 sys_dead sys_dead_reachable)).
Defined.

Section worker_loop.

Variable retry_base : Z.

Implicit Types (tbl : Storage.table) (r job : Job.t) (s : Queue.sys).

Lemma pick_job_for_worker_None now tbl tbl' :
  Storage.pick_job_for_worker now tbl = (tbl', None) → tbl' = tbl.
Proof.
  rewrite pick_job_for_worker_eq.
  destruct (Storage.order_by_created_at_limit_1 _); [discriminate|].
  by intros [= <-].
Qed.

Lemma run_reachable ticks s :
  Queue.reachable retry_base s →
  Queue.reachable retry_base
    (Queue.mk (Worker.run retry_base ticks (Queue.store s)).1 (Queue.held s)).
Proof.
  revert s. induction ticks as [|t ticks IH]; intros s Hs;
    cbn [Worker.run].
  - by destruct s.
  - destruct (Worker.tick_stop t); [by destruct s|].
    destruct (Storage.pick_job_for_worker (Worker.tick_now t) (Queue.store s))
      as [tbl' [job|]] eqn:Hpick.
    + destruct (Worker.process_job retry_base (Worker.tick_now_fail t)
                  (Worker.tick_now_retry t) (Worker.tick_now_upd t)
                  (Worker.tick_outcome t) job tbl')
        as [[tbl'' job'] ended] eqn:Hproc.
      assert (Queue.reachable retry_base (Queue.mk tbl'' (Queue.held s)))
        as Hnext.
      { eapply Queue.reachable_step.
        - eapply Queue.reachable_step; [exact Hs|].
          by apply (Queue.step_claim retry_base s (Worker.tick_now t)
                      tbl' job).
        - by apply (Queue.step_process retry_base
                      (Queue.mk tbl' (job :: Queue.held s))
                      (Worker.tick_now_fail t) (Worker.tick_now_retry t)
                      (Worker.tick_now_upd t) (Worker.tick_outcome t) job
                      [] (Queue.held s) tbl'' job' ended). }
      destruct ended; [|exact Hnext].
      apply (IH (Queue.mk tbl'' (Queue.held s))). exact Hnext.
    + apply pick_job_for_worker_None in Hpick as ->. by apply IH.
Qed.

Lemma run_processing ticks tbl :
  let '(tbl', ended) := Worker.run retry_base ticks tbl in
  (ended ≠ Worker.Crashed →
   ∀ r, r ∈ tbl' → Job.state r = "processing" → r ∈ tbl) ∧
  (ended = Worker.Crashed →
   ∃ id, ∀ r, r ∈ tbl' → Job.state r = "processing" →
              r ∈ tbl ∨ Job.id r = id).
Proof.
  revert tbl. induction ticks as [|t ticks IH]; intros tbl;
    cbn [Worker.run].
  - split; [done|discriminate].
  - destruct (Worker.tick_stop t); [split; [done|discriminate]|].
    destruct (Storage.pick_job_for_worker (Worker.tick_now t) tbl)
      as [tbl1 [job|]] eqn:Hpick.
    + apply pick_job_for_worker_Some in Hpick as (row & _ & _ & -> & ->).
      destruct (process_job_cases retry_base (Worker.tick_now_fail t)
                  (Worker.tick_now_retry t) (Worker.tick_now_upd t)
                  (Worker.tick_outcome t)
                  (claimed (isoformat (Worker.tick_now t)) row)
                  (Storage.update_where_id (Job.id row)
                     (claimed (isoformat (Worker.tick_now t))) tbl))
        as (j & e & -> & _ & _ & Hcase).
      destruct e.
      * assert (∀ r, r ∈ Storage.update_where_id
                       (Job.id (claimed (isoformat (Worker.tick_now t)) row))
                       (written (Job.updated_at j) j)
                       (Storage.update_where_id (Job.id row)
                          (claimed (isoformat (Worker.tick_now t))) tbl) →
                     Job.state r = "processing" → r ∈ tbl) as Hpass.
        { intros r (r1 & Hr1 & ->)%update_where_id_elem Hst.
          case_bool_decide as Hid1.
          - exfalso. cbn [written Job.state] in Hst.
            destruct Hcase as [(_ & _ & ? & _)
                              |(_ & _ & [(_ & ? & _)
                                        |[(_ & ? & _)|(He & _)]])];
              [| | |discriminate He]; congruence.
          - apply update_where_id_elem in Hr1 as (r0 & Hr0 & ->).
            case_bool_decide; [done|done]. }
        specialize (IH (Storage.update_where_id
                          (Job.id (claimed (isoformat (Worker.tick_now t)) row))
                          (written (Job.updated_at j) j)
                          (Storage.update_where_id (Job.id row)
                             (claimed (isoformat (Worker.tick_now t))) tbl))).
        destruct (Worker.run retry_base ticks _) as [tbl' ended].
        destruct IH as [IH1 IH2]. split.
        -- intros Hne r Hr Hst. apply Hpass; [by apply IH1|done].
        -- intros He. destruct (IH2 He) as (id & Hid). exists id.
           intros r Hr Hst. destruct (Hid r Hr Hst) as [?|?]; [|by right].
           left. by apply Hpass.
      * split; [done|]. intros _. exists (Job.id row).
        intros r (r0 & Hr0 & ->)%update_where_id_elem Hst.
        case_bool_decide; [by right|by left].
    + apply pick_job_for_worker_None in Hpick as ->. apply IH.
Qed.

End worker_loop.

(** X13. The loop of [run] moves within the transition system: from a
    reachable state, the table it leaves after any passes is reachable
    with the same held jobs, so every invariant of the reachable states
    holds along it. While no exception has left the loop, a row that is
    processing after the passes was processing before them and is
    unchanged: each pass that claims a job leaves it completed, pending
    or dead. When the OverflowError of [process_job] has left the loop,
    the rows that the passes have left processing are those of one id,
    the job of the last pass. *)
Theorem run_keeps_reachable_and_resolves_its_claims
    (retry_base : Z) (ticks : list Worker.tick) :
  (∀ s, Queue.reachable retry_base s →
        Queue.reachable retry_base
          (Queue.mk (Worker.run retry_base ticks (Queue.store s)).1
                    (Queue.held s))) ∧
  (∀ tbl,
     let '(tbl', ended) := Worker.run retry_base ticks tbl in
     (ended ≠ Worker.Crashed →
      ∀ r, r ∈ tbl' → Job.state r = "processing" → r ∈ tbl) ∧
     (ended = Worker.Crashed →
      ∃ id, ∀ r, r ∈ tbl' → Job.state r = "processing" →
                 r ∈ tbl ∨ Job.id r = id)).
Proof.
  split.
  - intros s. apply run_reachable.
  - intros tbl. apply run_processing.
Qed.

Lemma run_keeps_reachable_and_resolves_its_claims_witness :
  Queue.reachable 2
    (Queue.mk (Worker.run 2
                 [Worker.mk_tick false (t0 + 4000000)
                    (Worker.CompletedProcess 0) (t0 + 5000000)
                    (t0 + 5000000) (t0 + 5000000)]
                 (Queue.store sys_retrying)).1
              (Queue.held sys_retrying)).
Proof.
  exact (proj1 (run_keeps_reachable_and_resolves_its_claims 2 _)
           sys_retrying sys_retrying_reachable).
Defined.

(** X14. The first run of a job enqueued under a fresh id, whatever else
    the table holds: once a worker has claimed it, the handling of the run
    returns and leaves its row completed with attempts 0 on return code
    0; on a failure dead with attempts 1 when [max_retries] is 1 or less
    (zero and negative values are accepted by [enqueue] and behave like
    1), and otherwise pending with attempts 1 and [retry_after_time] the
    failure instant plus [retry_base] seconds, that instant being a
    [datetime]. *)
Theorem first_run_of_a_fresh_job
    (retry_base : Z) (now c f f' u : datetime) (id command : string)
    (max_retries : option Z) (outcome : Worker.run_outcome)
    (tbl tbl1 tbl2 : Storage.table) (echo : string) (job : Job.t) :
  id ∉ Job.id <$> tbl →
  Cli.enqueue now id command max_retries tbl = Ok (tbl1, echo) →
  Storage.pick_job_for_worker c tbl1 = (tbl2, Some job) →
  Job.id job = id →
  representable (f + timedelta retry_base) →
  ∃ tbl3 job',
    Worker.process_job retry_base f f' u outcome job tbl2 =
      (tbl3, job', Worker.Returns) ∧
    tbl3 !! length tbl =
    Some (let m := default 3 max_retries in
          match outcome with
          | Worker.CompletedProcess 0 =>
              Job.mk id command m "completed" 0
                     (isoformat now) (isoformat u) None
          | _ =>
              if decide (m <= 1) then
                Job.mk id command m "dead" 1
                       (isoformat now) (isoformat u) None
              else
                Job.mk id command m "pending" 1
                       (isoformat now) (isoformat u)
                       (Some (isoformat (f + timedelta retry_base)))
          end).
Proof.
  intros Hfresh Henq Hpick Hid Hrt.
  apply pick_job_for_worker_Some in Hpick as (row & Hrow & _ & -> & ->).
  simpl in Hid.
  apply cli_enqueue_eq in Henq as [-> | [_ ->]].
  { exfalso. apply Hfresh. rewrite <- Hid. apply list_elem_of_fmap.
    by exists row. }
  apply elem_of_app in Hrow as [Hrow|Hrow].
  { exfalso. apply Hfresh. rewrite <- Hid. apply list_elem_of_fmap.
    by exists row. }
  apply list_elem_of_singleton in Hrow. subst row. simpl.
  set (m := default 3 max_retries).
  set (new := Job.mk id command m "pending" 0
                (isoformat now) (isoformat now) None).
  set (tbl2 := Storage.update_where_id id (claimed (isoformat c))
                 (tbl ++ [new])).
  assert (∀ set, Storage.update_where_id id set tbl2 !! length tbl =
                 Some (set (claimed (isoformat c) new))) as Hlook.
  { intros set. unfold tbl2. rewrite !update_where_id_lookup.
    rewrite list_lookup_middle by done. simpl.
    rewrite (bool_decide_eq_true_2 (id = id)) by done. simpl.
    by rewrite (bool_decide_eq_true_2 (id = id)) by done. }
  assert (∃ tbl3 job',
    Worker.handle_failure retry_base f u (claimed (isoformat c) new) tbl2 =
      (tbl3, job', Worker.Returns) ∧
    tbl3 !! length tbl =
    Some (if decide (m <= 1) then
            Job.mk id command m "dead" 1 (isoformat now) (isoformat u) None
          else
            Job.mk id command m "pending" 1 (isoformat now) (isoformat u)
                   (Some (isoformat (f + timedelta retry_base)))))
    as (tf & jf & Hfail & Hrow).
  { case_decide as Hm.
    - rewrite handle_failure_dead by (simpl; lia).
      rewrite update_job_state_eq. eexists _, _. split; [reflexivity|].
      simpl. by rewrite Hlook.
    - rewrite handle_failure_pending.
      + rewrite update_job_state_eq. eexists _, _. split; [reflexivity|].
        cbn [failed claimed Job.id Job.attempts new].
        rewrite Hlook. change (0 + 1) with 1. rewrite Z.pow_1_r.
        reflexivity.
      + simpl. lia.
      + cbn [claimed Job.attempts new]. change (0 + 1) with 1.
        rewrite Z.pow_1_r. exact Hrt. }
  unfold Worker.process_job. destruct outcome as [rc|status].
  - destruct (Z.eqb_spec rc 0) as [->|Hrc].
    + unfold Worker.handle_success. rewrite update_job_state_eq.
      eexists _, _. split; [reflexivity|]. simpl. by rewrite Hlook.
    + rewrite Hfail. exists tf, jf. split; [reflexivity|].
      rewrite Hrow. by destruct rc.
  - exists tf, jf. split; [exact Hfail|exact Hrow].
Qed.

Lemma first_run_of_a_fresh_job_witness :
  ∃ tbl3 job',
    Worker.process_job 2 (t0 + 2000000) (t0 + 2000000) (t0 + 2000000)
      (Worker.CompletedProcess 1)
      (claimed "2024-01-01T00:00:01+00:00"
         (Job.mk "c" "exit 1" 0 "pending" 0 "2024-01-01T00:00:00+00:00"
                 "2024-01-01T00:00:00+00:00" None))
      [job_a_dead;
       claimed "2024-01-01T00:00:01+00:00"
         (Job.mk "c" "exit 1" 0 "pending" 0 "2024-01-01T00:00:00+00:00"
                 "2024-01-01T00:00:00+00:00" None)] =
      (tbl3, job', Worker.Returns) ∧
    tbl3 !! 1%nat =
    Some (Job.mk "c" "exit 1" 0 "dead" 1 "2024-01-01T00:00:00+00:00"
                 "2024-01-01T00:00:02+00:00" None).
Proof.
  assert (representable (t0 + 2000000 + timedelta 2)) as Hrt
    by (vm_compute; split; discriminate).
  refine (first_run_of_a_fresh_job 2 t0 (t0 + 1000000) (t0 + 2000000)
            (t0 + 2000000) (t0 + 2000000) "c" "exit 1" (Some 0)
            (Worker.CompletedProcess 1)
            [job_a_dead] _ _ "Job c added to queue in 'pending' state." _
            _ eq_refl eq_refl eq_refl Hrt).
  intros H%list_elem_of_singleton. discriminate H.
Defined.

(** * Further properties: the order of the timestamps *)

Lemma string_compare_refl (s : string) : (s ?= s)%string = Eq.
Proof.
  induction s as [|c s IH]; [done|]. simpl.
  unfold Ascii.compare. by rewrite N.compare_refl.
Qed.

Lemma string_compare_app (x1 x2 y1 y2 : string) :
  String.length x1 = String.length x2 →
  (x1 +:+ y1 ?= x2 +:+ y2)%string =
  match (x1 ?= x2)%string with
  | Eq => (y1 ?= y2)%string
  | c => c
  end.
Proof.
  revert x2. induction x1 as [|a x1 IH]; intros [|b x2] Hlen;
    try discriminate; [done|].
  change ((String a (x1 +:+ y1) ?= String b (x2 +:+ y2))%string =
          match (String a x1 ?= String b x2)%string with
          | Eq => (y1 ?= y2)%string
          | c => c
          end).
  simpl. destruct (Ascii.compare a b); [|done..].
  apply IH. by injection Hlen.
Qed.

Lemma string_compare_prefix (p y1 y2 : string) :
  (p +:+ y1 ?= p +:+ y2)%string = (y1 ?= y2)%string.
Proof. by rewrite string_compare_app, string_compare_refl. Qed.

Lemma string_length_app (x y : string) :
  String.length (x +:+ y) = (String.length x + String.length y)%nat.
Proof.
  induction x as [|a x IH]; [done|].
  change (S (String.length (x +:+ y)) =
          S (String.length x + String.length y)). by rewrite IH.
Qed.

Lemma zfill_length w n : String.length (zfill w n) = w.
Proof.
  revert n. induction w as [|w IH]; intros n; [done|].
  change (zfill (S w) n) with (zfill w (n / 10) +:+ String (digit n) "").
  rewrite string_length_app, IH. simpl. lia.
Qed.

Lemma digit_compare a b :
  Ascii.compare (digit a) (digit b) = (a mod 10 ?= b mod 10).
Proof.
  unfold digit.
  assert (∀ x, 0 <= x < 10 →
            x = 0 ∨ x = 1 ∨ x = 2 ∨ x = 3 ∨ x = 4 ∨
            x = 5 ∨ x = 6 ∨ x = 7 ∨ x = 8 ∨ x = 9) as Hcases by lia.
  assert (0 <= a mod 10 < 10) as Ha by (apply Z.mod_pos_bound; lia).
  assert (0 <= b mod 10 < 10) as Hb by (apply Z.mod_pos_bound; lia).
  destruct (Hcases _ Ha) as [->|[->|[->|[->|[->|[->|[->|[->|[->| ->]]]]]]]]];
  destruct (Hcases _ Hb) as [->|[->|[->|[->|[->|[->|[->|[->|[->| ->]]]]]]]]];
  reflexivity.
Qed.

Lemma zfill_compare w a b :
  0 <= a < 10 ^ Z.of_nat w → 0 <= b < 10 ^ Z.of_nat w →
  (zfill w a ?= zfill w b)%string = (a ?= b).
Proof.
  revert a b. induction w as [|w IH]; intros a b Ha Hb.
  - change (10 ^ Z.of_nat 0) with 1 in Ha, Hb.
    assert (a = 0) as -> by lia. assert (b = 0) as -> by lia.
    done.
  - change (zfill (S w) a) with (zfill w (a / 10) +:+ String (digit a) "").
    change (zfill (S w) b) with (zfill w (b / 10) +:+ String (digit b) "").
    rewrite Nat2Z.inj_succ, Z.pow_succ_r in Ha, Hb by lia.
    rewrite string_compare_app by (by rewrite !zfill_length).
    rewrite IH by (split; [apply Z.div_pos; lia|apply Z.div_lt_upper_bound; lia]).
    change ((String (digit a) "" ?= String (digit b) "")%string) with
      (match Ascii.compare (digit a) (digit b) with
       | Eq => Eq
       | ne => ne
       end).
    rewrite digit_compare.
    destruct (Z.compare_spec (a / 10) (b / 10)) as [Hq|Hq|Hq].
    + destruct (Z.compare_spec (a mod 10) (b mod 10)) as [Hr|Hr|Hr];
        symmetry; [apply Z.compare_eq_iff|apply Z.compare_lt_iff
                  |apply Z.compare_gt_iff];
        rewrite (Z.div_mod a 10), (Z.div_mod b 10) by lia; lia.
    + symmetry. apply Z.compare_lt_iff.
      rewrite (Z.div_mod a 10), (Z.div_mod b 10) by lia.
      pose proof (Z.mod_pos_bound a 10). pose proof (Z.mod_pos_bound b 10).
      lia.
    + symmetry. apply Z.compare_gt_iff.
      rewrite (Z.div_mod a 10), (Z.div_mod b 10) by lia.
      pose proof (Z.mod_pos_bound a 10). pose proof (Z.mod_pos_bound b 10).
      lia.
Qed.


Lemma civil_from_days_range z :
  ∃ y m d, civil_from_days z = (y, m, d) ∧ 1 <= m <= 12 ∧ 1 <= d <= 31.
Proof.
  unfold civil_from_days. cbv zeta.
  eexists _, _, _. split; [reflexivity|].
  set (doe := (z + 719468) mod 146097).
  assert (0 <= doe < 146097) as Hdoe by (apply Z.mod_pos_bound; lia).
  clearbody doe.
  set (yoe := (doe - doe / 1460 + doe / 36524 - doe / 146096) / 365).
  set (doy := doe - (365 * yoe + yoe / 4 - yoe / 100)).
  assert (0 <= doy <= 365) as Hdoy
    by (unfold doy, yoe; Z.to_euclidean_division_equations; lia).
  clearbody doy. clear yoe.
  set (mp := (5 * doy + 2) / 153).
  assert (0 <= mp <= 11) as Hmp
    by (unfold mp; Z.to_euclidean_division_equations; lia).
  assert (1 <= doy - (153 * mp + 2) / 5 + 1 <= 31) as Hd
    by (unfold mp; Z.to_euclidean_division_equations; lia).
  split; [|done].
  destruct (Z.ltb_spec mp 10); lia.
Qed.

Lemma doe_split doe1 doe2 :
  0 <= doe1 → doe1 < doe2 → doe2 < 146097 →
  let yoe1 := (doe1 - doe1 / 1460 + doe1 / 36524 - doe1 / 146096) / 365 in
  let yoe2 := (doe2 - doe2 / 1460 + doe2 / 36524 - doe2 / 146096) / 365 in
  let doy1 := doe1 - (365 * yoe1 + yoe1 / 4 - yoe1 / 100) in
  let doy2 := doe2 - (365 * yoe2 + yoe2 / 4 - yoe2 / 100) in
  yoe1 < yoe2 ∨ (yoe1 = yoe2 ∧ doy1 < doy2).
Proof.
  intros H0 H1 H2. cbv zeta.
  Z.to_euclidean_division_equations; lia.
Qed.

Lemma doy_split doy1 doy2 :
  doy1 < doy2 →
  let mp1 := (5 * doy1 + 2) / 153 in
  let mp2 := (5 * doy2 + 2) / 153 in
  mp1 < mp2 ∨
  (mp1 = mp2 ∧ doy1 - (153 * mp1 + 2) / 5 + 1 < doy2 - (153 * mp2 + 2) / 5 + 1).
Proof.
  intros H. cbv zeta. Z.to_euclidean_division_equations; lia.
Qed.

Lemma doe_range doe :
  0 <= doe < 146097 →
  let yoe := (doe - doe / 1460 + doe / 36524 - doe / 146096) / 365 in
  0 <= yoe <= 399 ∧ 0 <= doe - (365 * yoe + yoe / 4 - yoe / 100) <= 365.
Proof.
  intros H. cbv zeta. Z.to_euclidean_division_equations; lia.
Qed.

Lemma civil_from_days_lt z1 z2 :
  z1 < z2 →
  ∃ y1 m1 d1 y2 m2 d2,
    civil_from_days z1 = (y1, m1, d1) ∧ civil_from_days z2 = (y2, m2, d2) ∧
    (y1 < y2 ∨ (y1 = y2 ∧ (m1 < m2 ∨ (m1 = m2 ∧ d1 < d2)))).
Proof.
  intros Hlt. unfold civil_from_days. cbv zeta.
  eexists _, _, _, _, _, _. split; [reflexivity|]. split; [reflexivity|].
  set (era1 := (z1 + 719468) / 146097). set (era2 := (z2 + 719468) / 146097).
  set (doe1 := (z1 + 719468) mod 146097).
  set (doe2 := (z2 + 719468) mod 146097).
  assert (0 <= doe1 < 146097) as Hd1 by (apply Z.mod_pos_bound; lia).
  assert (0 <= doe2 < 146097) as Hd2 by (apply Z.mod_pos_bound; lia).
  assert (era1 < era2 ∨ (era1 = era2 ∧ doe1 < doe2)) as Hera
    by (unfold era1, era2, doe1, doe2; Z.to_euclidean_division_equations; lia).
  clearbody era1 era2 doe1 doe2. clear Hlt z1 z2.
  pose proof (doe_range doe1 Hd1) as Hr1. pose proof (doe_range doe2 Hd2) as Hr2.
  cbv zeta in Hr1, Hr2.
  pose proof (λ H, doe_split doe1 doe2 (proj1 Hd1) H (proj2 Hd2)) as Hsplit.
  cbv zeta in Hsplit.
  set (yoe1 := (doe1 - doe1 / 1460 + doe1 / 36524 - doe1 / 146096) / 365) in *.
  set (yoe2 := (doe2 - doe2 / 1460 + doe2 / 36524 - doe2 / 146096) / 365) in *.
  set (doy1 := doe1 - (365 * yoe1 + yoe1 / 4 - yoe1 / 100)) in *.
  set (doy2 := doe2 - (365 * yoe2 + yoe2 / 4 - yoe2 / 100)) in *.
  clearbody doy1 doy2. clearbody yoe1 yoe2.
  pose proof (λ H, doy_split doy1 doy2 H) as Hdoy. cbv zeta in Hdoy.
  assert (0 <= (5 * doy1 + 2) / 153 <= 11) as Hmp1
    by (Z.to_euclidean_division_equations; lia).
  assert (0 <= (5 * doy2 + 2) / 153 <= 11) as Hmp2
    by (Z.to_euclidean_division_equations; lia).
  set (mp1 := (5 * doy1 + 2) / 153) in *.
  set (mp2 := (5 * doy2 + 2) / 153) in *.
  set (d1 := doy1 - (153 * mp1 + 2) / 5 + 1) in *.
  set (d2 := doy2 - (153 * mp2 + 2) / 5 + 1) in *.
  clearbody d1 d2. clearbody mp1 mp2.
  destruct (Z.ltb_spec mp1 10); destruct (Z.ltb_spec mp2 10);
    repeat match goal with
           | |- context [Z.leb ?a ?b] => destruct (Z.leb_spec a b)
           end; lia.
Qed.

Lemma isoformat_render dt :
  isoformat dt =
  render (date_time_fields (dt / 1000000)) (fraction (dt mod 1000000)).
Proof.
  unfold isoformat, date_time_fields, fraction. cbv zeta.
  by destruct (civil_from_days _) as [[y m] d].
Qed.

Lemma render_compare fs1 fs2 r1 r2 :
  Forall2 (λ f1 f2 : nat * Z * string,
             f1.1.1 = f2.1.1 ∧ f1.2 = f2.2 ∧
             0 <= f1.1.2 < 10 ^ Z.of_nat f1.1.1 ∧
             0 <= f2.1.2 < 10 ^ Z.of_nat f1.1.1) fs1 fs2 →
  (render fs1 r1 ?= render fs2 r2)%string =
  match lex_compare (fs1.*1.*2) (fs2.*1.*2) with
  | Eq => (r1 ?= r2)%string
  | c => c
  end.
Proof.
  induction 1 as [|[[w x] sep] [[w' y] sep'] fs1 fs2 (Hw & Hsep & Hx & Hy) _ IH];
    [done|].
  simpl in Hw, Hsep, Hx, Hy. subst w' sep'.
  change ((zfill w x +:+ (sep +:+ render fs1 r1) ?=
           zfill w y +:+ (sep +:+ render fs2 r2))%string =
          match (match x ?= y with
                 | Eq => lex_compare (fs1.*1.*2) (fs2.*1.*2)
                 | c => c
                 end) with
          | Eq => (r1 ?= r2)%string
          | c => c
          end).
  rewrite string_compare_app by (by rewrite !zfill_length).
  rewrite zfill_compare by done.
  destruct (x ?= y); [|done..].
  by rewrite string_compare_prefix.
Qed.

Lemma fraction_lt us1 us2 :
  0 <= us1 → us1 < us2 → us2 < 1000000 →
  (fraction us1 ?= fraction us2)%string = Lt.
Proof.
  intros H0 H1 H2. unfold fraction.
  destruct (Z.eqb_spec us2 0) as [?|_]; [lia|].
  destruct (Z.eqb_spec us1 0) as [_|Hne]; [reflexivity|].
  rewrite string_compare_app
    by (rewrite !string_length_app, !zfill_length; done).
  rewrite string_compare_prefix, zfill_compare by (simpl; lia).
  by rewrite (proj2 (Z.compare_lt_iff us1 us2)).
Qed.

Lemma civil_from_days_year z :
  -719162 <= z <= 2932896 →
  ∃ y m d, civil_from_days z = (y, m, d) ∧
           1 <= y <= 9999 ∧ 1 <= m <= 12 ∧ 1 <= d <= 31.
Proof.
  intros [Hlo Hhi].
  destruct (civil_from_days_range z) as (y & m & d & E & Hm & Hd).
  exists y, m, d. split; [done|]. split; [|done]. split.
  - destruct (Z.eq_dec z (-719162)) as [->|Hne].
    + vm_compute in E. injection E as <- _ _. lia.
    + destruct (civil_from_days_lt (-719162) z)
        as (y1 & m1 & d1 & y2 & m2 & d2 & E1 & E2 & Hlex); [lia|].
      vm_compute in E1. rewrite E in E2.
      injection E1 as <- <- <-. injection E2 as <- <- <-. lia.
  - destruct (Z.eq_dec z 2932896) as [->|Hne].
    + vm_compute in E. injection E as <- _ _. lia.
    + destruct (civil_from_days_lt z 2932896)
        as (y1 & m1 & d1 & y2 & m2 & d2 & E1 & E2 & Hlex); [lia|].
      vm_compute in E2. rewrite E in E1.
      injection E1 as <- <- <-. injection E2 as <- <- <-. lia.
Qed.

Lemma isoformat_compare_lt a b :
  representable a → representable b → a < b →
  (isoformat a ?= isoformat b)%string = Lt.
Proof.
  unfold representable, datetime_min, datetime_max. intros Ha Hb Hlt.
  rewrite !isoformat_render.
  set (sa := a / 1000000). set (sb := b / 1000000).
  set (ua := a mod 1000000). set (ub := b mod 1000000).
  assert (0 <= ua < 1000000) as Hua by (apply Z.mod_pos_bound; lia).
  assert (0 <= ub < 1000000) as Hub by (apply Z.mod_pos_bound; lia).
  assert (-62135596800 <= sa <= 253402300799) as Hsa
    by (unfold sa; Z.to_euclidean_division_equations; lia).
  assert (-62135596800 <= sb <= 253402300799) as Hsb
    by (unfold sb; Z.to_euclidean_division_equations; lia).
  assert (sa < sb ∨ (sa = sb ∧ ua < ub)) as Hcase
    by (unfold sa, sb, ua, ub; Z.to_euclidean_division_equations; lia).
  clearbody sa sb ua ub. clear Ha Hb Hlt a b.
  unfold date_time_fields. cbv zeta.
  set (da := sa / 86400). set (db := sb / 86400).
  set (oa := sa mod 86400). set (ob := sb mod 86400).
  assert (0 <= oa < 86400) as Hoa by (apply Z.mod_pos_bound; lia).
  assert (0 <= ob < 86400) as Hob by (apply Z.mod_pos_bound; lia).
  assert (-719162 <= da <= 2932896) as Hda
    by (unfold da; Z.to_euclidean_division_equations; lia).
  assert (-719162 <= db <= 2932896) as Hdb
    by (unfold db; Z.to_euclidean_division_equations; lia).
  assert (da < db ∨ (da = db ∧ oa < ob) ∨ (da = db ∧ oa = ob ∧ ua < ub))
    as Hlex
    by (unfold da, db, oa, ob; Z.to_euclidean_division_equations; lia).
  clearbody da db oa ob. clear Hcase Hsa Hsb sa sb.
  destruct (civil_from_days_year da Hda)
    as (y1 & m1 & d1 & E1 & Hy1 & Hm1 & Hd1).
  destruct (civil_from_days_year db Hdb)
    as (y2 & m2 & d2 & E2 & Hy2 & Hm2 & Hd2).
  assert (da < db → y1 < y2 ∨ (y1 = y2 ∧ (m1 < m2 ∨ (m1 = m2 ∧ d1 < d2))))
    as Hdate.
  { intros H. destruct (civil_from_days_lt da db H)
      as (? & ? & ? & ? & ? & ? & E1' & E2' & ?).
    rewrite E1 in E1'. rewrite E2 in E2'.
    injection E1' as <- <- <-. injection E2' as <- <- <-. done. }
  assert (da = db → y1 = y2 ∧ m1 = m2 ∧ d1 = d2) as Hsame.
  { intros ->. rewrite E1 in E2. by injection E2 as -> -> ->. }
  rewrite E1, E2. clear E1 E2.
  rewrite render_compare.
  2:{ repeat (apply Forall2_cons; split;
              [simpl; repeat split; try done;
               Z.to_euclidean_division_equations; lia|]).
      apply Forall2_nil_2. }
  simpl lex_compare.
  set (h1 := oa / 3600). set (h2 := ob / 3600).
  set (i1 := oa / 60 mod 60). set (i2 := ob / 60 mod 60).
  set (s1 := oa mod 60). set (s2 := ob mod 60).
  assert (oa = 3600 * h1 + 60 * i1 + s1 ∧ 0 <= i1 < 60 ∧ 0 <= s1 < 60) as Ho1
    by (unfold h1, i1, s1; Z.to_euclidean_division_equations; lia).
  assert (ob = 3600 * h2 + 60 * i2 + s2 ∧ 0 <= i2 < 60 ∧ 0 <= s2 < 60) as Ho2
    by (unfold h2, i2, s2; Z.to_euclidean_division_equations; lia).
  clearbody h1 h2 i1 i2 s1 s2.
  destruct (Z.compare_spec y1 y2); [|done|lia].
  destruct (Z.compare_spec m1 m2); [|done|lia].
  destruct (Z.compare_spec d1 d2); [|done|lia].
  destruct (Z.compare_spec h1 h2); [|done|lia].
  destruct (Z.compare_spec i1 i2); [|done|lia].
  destruct (Z.compare_spec s1 s2); [|done|lia].
  apply fraction_lt; lia.
Qed.

Lemma isoformat_le_iff a b :
  representable a → representable b →
  (isoformat a ≤ isoformat b)%string ↔ a <= b.
Proof.
  intros Ha Hb. unfold String.le, String.leb. split.
  - intros H. destruct (Z.le_gt_cases a b) as [?|Hgt]; [done|].
    rewrite String.compare_antisym in H.
    by rewrite (isoformat_compare_lt b a Hb Ha) in H by lia.
  - intros H. destruct (Z.eq_dec a b) as [->|Hne].
    + by rewrite string_compare_refl.
    + by rewrite (isoformat_compare_lt a b Ha Hb) by lia.
Qed.




(** X15. The texts of two instants that a [datetime] can hold compare,
    bytewise as the claim query compares them, exactly as the instants
    do, with or without a microsecond fraction; distinct instants have
    distinct texts. *)
Theorem isoformat_orders_like_time (a b : datetime) :
  representable a → representable b →
  ((isoformat a ≤ isoformat b)%string ↔ a <= b) ∧
  (isoformat a = isoformat b ↔ a = b).
Proof.
  intros Ha Hb. split; [exact (isoformat_le_iff a b Ha Hb)|]. split.
  - intros Heq. destruct (Z.lt_trichotomy a b) as [H|[H|H]]; [|exact H|].
    + pose proof (isoformat_compare_lt a b Ha Hb H) as Hc.
      rewrite Heq, string_compare_refl in Hc. discriminate Hc.
    + pose proof (isoformat_compare_lt b a Hb Ha H) as Hc.
      rewrite Heq, string_compare_refl in Hc. discriminate Hc.
  - intros ->. reflexivity.
Qed.

Lemma isoformat_orders_like_time_witness :
  representable t0 ∧ representable (t0 + 1) ∧
  ((isoformat t0 ≤ isoformat (t0 + 1))%string ↔ t0 <= t0 + 1).
Proof.
  assert (representable t0) as H0 by (vm_compute; split; discriminate).
  assert (representable (t0 + 1)) as H1 by (vm_compute; split; discriminate).
  split; [exact H0|]. split; [exact H1|].
  exact (proj1 (isoformat_orders_like_time t0 (t0 + 1) H0 H1)).
Defined.

Section backoff_in_time.

Implicit Types (tbl : Storage.table) (r job : Job.t).

Lemma pick_job_for_worker_Some_eligible now tbl tbl' job :
  Storage.pick_job_for_worker now tbl = (tbl', Some job) →
  ∃ row, row ∈ tbl ∧ eligible (isoformat now) row ∧
         (∀ r, r ∈ tbl → eligible (isoformat now) r →
               (Job.created_at row ≤ Job.created_at r)%string) ∧
         job = claimed (isoformat now) row.
Proof.
  rewrite pick_job_for_worker_eq.
  destruct (Storage.order_by_created_at_limit_1 _) as [row|] eqn:E;
    [|discriminate].
  intros [= <- <-]. exists row.
  apply order_by_created_at_Some in E as [Hin Hmin].
  apply list_elem_of_filter in Hin as [Hel%ready_eligible Hin].
  split; [done|]. split; [done|]. split; [|done].
  intros r Hr Hr'. apply Hmin. apply list_elem_of_filter.
  split; [by apply ready_eligible|done].
Qed.

Lemma pick_job_for_worker_is_Some now tbl r :
  r ∈ tbl → eligible (isoformat now) r →
  is_Some (Storage.pick_job_for_worker now tbl).2.
Proof.
  intros Hr Hel. rewrite pick_job_for_worker_eq.
  destruct (Storage.order_by_created_at_limit_1 _) as [row|] eqn:E;
    [by eexists|].
  apply order_by_created_at_None in E.
  assert (r ∈ filter (λ r, Storage.ready (isoformat now) r) tbl) as Hf
    by (apply list_elem_of_filter; split; [by apply ready_eligible|done]).
  rewrite E in Hf. by apply not_elem_of_nil in Hf.
Qed.

End backoff_in_time.


(** X16. After a failure below the threshold, the job is not claimed at
    any instant before the failure instant plus [retry_base ^ attempts]
    seconds, and from that instant on a claim does return a job, the
    table holding a row of the job's id. The instants are ones a
    [datetime] can hold. *)
Theorem retry_waits_for_the_backoff
    (retry_base : Z) (now now_upd c : datetime) (job : Job.t)
    (tbl : Storage.table) :
  0 <= Job.attempts job →
  Job.attempts job + 1 < Job.max_retries job →
  let retry_time := now + timedelta (retry_base ^ (Job.attempts job + 1)) in
  representable retry_time → representable c →
  let tbl' := (Worker.handle_failure retry_base now now_upd job tbl).1.1 in
  (c < retry_time →
   ∀ tbl'' j, Storage.pick_job_for_worker c tbl' = (tbl'', Some j) →
              Job.id j ≠ Job.id job) ∧
  (retry_time <= c →
   (∃ r, r ∈ tbl ∧ Job.id r = Job.id job) →
   is_Some (Storage.pick_job_for_worker c tbl').2).
Proof.
  intros H0 Hlt retry_time Hrt Hc tbl'. subst tbl'.
  rewrite (handle_failure_pending retry_base now now_upd job tbl Hlt Hrt).
  subst retry_time.
  set (retry_time := now + timedelta (retry_base ^ (Job.attempts job + 1)))
    in *.
  clearbody retry_time.
  unfold Storage.update_job_state. cbn [fst]. split.
  - intros Hbefore tbl'' j Hpick Hid.
    apply pick_job_for_worker_Some_eligible in Hpick
      as (row & Hrow & (_ & Hel) & _ & ->).
    cbn [claimed Job.id] in Hid.
    apply update_where_id_elem in Hrow as (r & Hr & ->).
    destruct (bool_decide _) eqn:E.
    + cbn [Job.retry_after_time Job.set_retry_after_time failed
           Job.set_updated_at Job.set_attempts Job.set_state] in Hel.
      destruct Hel as [Hel|(t & Ht & Hle)]; [discriminate Hel|].
      injection Ht as <-.
      pose proof (proj1 (isoformat_le_iff retry_time c Hrt Hc) Hle). lia.
    + apply bool_decide_eq_false in E. apply E. exact Hid.
  - intros Hafter (r & Hr & Hid).
    eapply pick_job_for_worker_is_Some.
    + apply update_where_id_elem. exists r. split; [exact Hr|].
      rewrite bool_decide_eq_true_2; [reflexivity|exact Hid].
    + split; [reflexivity|]. right. eexists. split; [reflexivity|].
      apply (isoformat_le_iff retry_time c Hrt Hc). exact Hafter.
Qed.

Lemma retry_waits_for_the_backoff_witness :
  is_Some (Storage.pick_job_for_worker (t0 + 4000000)
             (Worker.handle_failure 2 (t0 + 2000000) (t0 + 2000000)
                job_a_claimed [job_a_claimed]).1.1).2.
Proof.
  assert (0 <= Job.attempts job_a_claimed) as H0
    by (vm_compute; discriminate).
  assert (Job.attempts job_a_claimed + 1 < Job.max_retries job_a_claimed)
    as H1 by (vm_compute; reflexivity).
  assert (representable
            (t0 + 2000000 +
             timedelta (2 ^ (Job.attempts job_a_claimed + 1)))) as Hrt
    by (vm_compute; split; discriminate).
  assert (representable (t0 + 4000000)) as Hc
    by (vm_compute; split; discriminate).
  assert (t0 + 2000000 + timedelta (2 ^ (Job.attempts job_a_claimed + 1))
          <= t0 + 4000000) as Hle by (vm_compute; discriminate).
  assert (∃ r, r ∈ [job_a_claimed] ∧ Job.id r = Job.id job_a_claimed)
    as Hex by (exists job_a_claimed; split;
               [apply list_elem_of_here|reflexivity]).
  exact (proj2 (retry_waits_for_the_backoff 2 (t0 + 2000000) (t0 + 2000000)
                  (t0 + 4000000) job_a_claimed [job_a_claimed]
                  H0 H1 Hrt Hc) Hle Hex).
Defined.

(** X17. First in, first out in time: when a claim returns a job, no
    eligible row of the table was created at an earlier instant than the
    job, the [created_at] texts being those of instants a [datetime] can
    hold. *)
Theorem claim_takes_the_earliest_created
    (now tj tr : datetime) (tbl tbl' : Storage.table) (job r : Job.t) :
  Storage.pick_job_for_worker now tbl = (tbl', Some job) →
  r ∈ tbl → eligible (isoformat now) r →
  representable tj → representable tr →
  Job.created_at job = isoformat tj → Job.created_at r = isoformat tr →
  tj <= tr.
Proof.
  intros Hpick Hr Hel Htj Htr Hj Hcr.
  apply pick_job_for_worker_Some_eligible in Hpick
    as (row & _ & _ & Hmin & ->).
  cbn [claimed Job.created_at] in Hj. specialize (Hmin r Hr Hel).
  rewrite Hj, Hcr in Hmin.
  exact (proj1 (isoformat_le_iff tj tr Htj Htr) Hmin).
Qed.

Lemma claim_takes_the_earliest_created_witness :
  Storage.pick_job_for_worker (t0 + 9)
    [job_a; Job.mk "d" "true" 3 "pending" 0 (isoformat (t0 + 5))
                   (isoformat (t0 + 5)) None] =
  ([claimed (isoformat (t0 + 9)) job_a;
    Job.mk "d" "true" 3 "pending" 0 (isoformat (t0 + 5))
           (isoformat (t0 + 5)) None],
   Some (claimed (isoformat (t0 + 9)) job_a)) ∧
  t0 <= t0 + 5.
Proof.
  assert (representable t0) as H0 by (vm_compute; split; discriminate).
  assert (representable (t0 + 5)) as H1 by (vm_compute; split; discriminate).
  assert (Storage.pick_job_for_worker (t0 + 9)
            [job_a; Job.mk "d" "true" 3 "pending" 0 (isoformat (t0 + 5))
                           (isoformat (t0 + 5)) None] =
          ([claimed (isoformat (t0 + 9)) job_a;
            Job.mk "d" "true" 3 "pending" 0 (isoformat (t0 + 5))
                   (isoformat (t0 + 5)) None],
           Some (claimed (isoformat (t0 + 9)) job_a))) as Hpick
    by (vm_compute; reflexivity).
  assert (Job.mk "d" "true" 3 "pending" 0 (isoformat (t0 + 5))
                 (isoformat (t0 + 5)) None ∈
          [job_a; Job.mk "d" "true" 3 "pending" 0 (isoformat (t0 + 5))
                         (isoformat (t0 + 5)) None]) as Hin
    by (apply list_elem_of_further, list_elem_of_here).
  assert (eligible (isoformat (t0 + 9))
            (Job.mk "d" "true" 3 "pending" 0 (isoformat (t0 + 5))
                    (isoformat (t0 + 5)) None)) as Hel
    by (split; [reflexivity|left; reflexivity]).
  assert (Job.created_at (claimed (isoformat (t0 + 9)) job_a) = isoformat t0)
    as Hj by (vm_compute; reflexivity).
  split; [exact Hpick|].
  exact (claim_takes_the_earliest_created (t0 + 9) t0 (t0 + 5) _ _ _ _
           Hpick Hin Hel H0 H1 Hj eq_refl).
Defined.

(** * Further properties: a job left by the exception *)

Section stuck.

Variable retry_base : Z.

Implicit Types (tbl : Storage.table) (r job : Job.t) (s : Queue.sys).

(** A processing row that no worker holds is out of reach of every
    operation. *)
Lemma unheld_processing_step s e s' r :
  Queue.reachable retry_base s → Queue.step retry_base s e s' →
  r ∈ Queue.store s → Job.state r = "processing" →
  Job.id r ∉ Job.id <$> Queue.held s →
  r ∈ Queue.store s' ∧ Job.id r ∉ Job.id <$> Queue.held s'.
Proof.
  intros Hreach Hstep Hr Hst Hfree.
  pose proof (reachable_distinct_ids retry_base s Hreach) as Hids.
  destruct Hstep
    as [s now id command mr tbl' echo _ Heq
       |s now tbl' job Heq
       |s now now_retry now_upd outcome job h1 h2 tbl' job' ended Hh Heq
       |s now now_upd job_id tbl' echo Heq]; cbn [Queue.store Queue.held] in *.
  - split; [|exact Hfree].
    apply cli_enqueue_eq in Heq as [-> | [_ ->]]; [exact Hr|].
    apply elem_of_app. by left.
  - apply pick_job_for_worker_Some in Heq
      as (row & Hrow & Hpend & -> & ->).
    assert (Job.id r ≠ Job.id row) as Hne.
    { intros Hid. assert (r = row) as ->
        by (eapply distinct_ids_eq; eauto). congruence. }
    split; [by apply update_where_id_other|].
    rewrite fmap_cons, not_elem_of_cons. split; [exact Hne|exact Hfree].
  - assert (Job.id r ≠ Job.id job) as Hne.
    { intros Hid. apply Hfree. rewrite Hh, Hid. apply list_elem_of_fmap.
      exists job. split; [reflexivity|]. apply elem_of_app. right. left. }
    destruct (process_job_cases retry_base now now_retry now_upd outcome job
                (Queue.store s)) as (j & e & Heq' & _ & _ & _).
    rewrite Heq' in Heq. injection Heq as <- <- <-. split.
    + destruct e; [by apply update_where_id_other|exact Hr].
    + intros (j0 & Hid & Hj0)%list_elem_of_fmap. apply Hfree.
      apply list_elem_of_fmap. exists j0. split; [exact Hid|].
      rewrite Hh. apply elem_of_app.
      apply elem_of_app in Hj0 as [?|?]; [by left|right; by right].
  - split; [|exact Hfree].
    apply cli_retry_eq in Heq as [->|(row & Hrow & Hid & Hdead & ->)];
      [exact Hr|].
    apply update_where_id_other; [exact Hr|].
    intros Hid'. assert (r = row) as ->
      by (eapply distinct_ids_eq; eauto; congruence). congruence.
Qed.

Lemma unheld_processing_later s s' r :
  Queue.reachable retry_base s → later retry_base s s' →
  r ∈ Queue.store s → Job.state r = "processing" →
  Job.id r ∉ Job.id <$> Queue.held s →
  Queue.reachable retry_base s' ∧
  r ∈ Queue.store s' ∧ Job.id r ∉ Job.id <$> Queue.held s'.
Proof.
  intros Hreach Hlater. revert Hreach.
  induction Hlater as [s|s s1 s' [e Hstep] _ IH]; intros Hreach Hr Hst Hfree.
  - done.
  - destruct (unheld_processing_step s e s1 r Hreach Hstep Hr Hst Hfree)
      as [Hr1 Hfree1].
    apply IH; [|exact Hr1|exact Hst|exact Hfree1].
    by eapply Queue.reachable_step.
Qed.

End stuck.

(** X18. A job whose handling is left by the OverflowError is stuck.
    When [process_job], run on a held job from a reachable state, is
    left by the exception, the row of the job is in the table as the
    claim left it, processing, and no worker holds a job of its id; and
    a processing row that no worker holds is never changed again: after
    any further operations, run one after the other, it is in the table
    as it was and still no worker holds it. *)
Theorem job_left_by_the_exception_is_stuck (retry_base : Z) :
  (∀ s now now_retry now_upd outcome job h1 h2 tbl' job',
     Queue.reachable retry_base s →
     Queue.held s = h1 ++ job :: h2 →
     Worker.process_job retry_base now now_retry now_upd outcome job
       (Queue.store s) = (tbl', job', Worker.Raises) →
     tbl' = Queue.store s ∧ job ∈ tbl' ∧ Job.state job = "processing" ∧
     (Job.id job ∉ Job.id <$> (h1 ++ h2)) ∧
     Job.attempts job < Job.attempts job' ∧ is_failure outcome) ∧
  (∀ s s' r,
     Queue.reachable retry_base s → later retry_base s s' →
     r ∈ Queue.store s → Job.state r = "processing" →
     Job.id r ∉ Job.id <$> Queue.held s →
     r ∈ Queue.store s' ∧ Job.id r ∉ Job.id <$> Queue.held s').
Proof.
  split.
  - intros s now now_retry now_upd outcome job h1 h2 tbl' job' Hreach Hh Heq.
    pose proof (reachable_inv retry_base s Hreach) as Hinv.
    pose proof (reachable_inv_held retry_base s Hreach) as (Hnd & Hin & _).
    rewrite Forall_forall in Hin.
    assert (job ∈ Queue.held s) as Hj
      by (rewrite Hh; apply elem_of_app; right; left).
    destruct (process_job_cases retry_base now now_retry now_upd outcome job
                (Queue.store s)) as (j & e & Heq' & _ & _ & Hcase).
    rewrite Heq' in Heq. injection Heq as <- <- ->.
    split; [reflexivity|]. split; [by apply Hin|].
    split; [by eapply held_is_processing|]. split.
    + rewrite Hh, fmap_app, fmap_cons in Hnd.
      apply NoDup_app in Hnd as (_ & Hdisj & Hn2).
      apply NoDup_cons in Hn2 as [Hjob _].
      rewrite fmap_app. intros [H1|H2]%elem_of_app; [|done].
      apply (Hdisj _ H1). left.
    + destruct Hcase as [(He & _)|(Hf & Hb & _)]; [discriminate He|].
      split; [lia|exact Hf].
  - intros s s' r Hreach Hlater Hr Hst Hfree.
    by destruct (unheld_processing_later retry_base s s' r Hreach Hlater
                   Hr Hst Hfree) as (_ & ? & ?).
Qed.

Lemma job_left_by_the_exception_is_stuck_witness :
  Queue.reachable 1000000000000 (Queue.mk [job_d_claimed] [job_d_claimed]) ∧
  Worker.process_job 1000000000000 (t0 + 2000000) (t0 + 2000000)
    (t0 + 2000000) (Worker.RunRaised None) job_d_claimed [job_d_claimed] =
    ([job_d_claimed], failed 1 "pending" None job_d_claimed, Worker.Raises) ∧
  job_d_claimed ∈ [job_d_claimed] ∧
  Job.state job_d_claimed = "processing" ∧
  (Job.id job_d_claimed ∉ Job.id <$> ([] ++ [] : list Job.t)).
Proof.
  assert (Queue.reachable 1000000000000
            (Queue.mk [job_d_claimed] [job_d_claimed])) as Hreach.
  { apply (Queue.reachable_step _
             (Queue.mk [Job.mk "d" "false" 2 "pending" 0
                          "2024-01-01T00:00:00+00:00"
                          "2024-01-01T00:00:00+00:00" None] [])
             (Queue.Claim "d")).
    - apply (Queue.reachable_step _ Queue.init (Queue.Enqueue "d"));
        [apply Queue.reachable_init|].
      apply (Queue.step_enqueue _ Queue.init t0 "d" "false" (Some 2)
               [Job.mk "d" "false" 2 "pending" 0
                  "2024-01-01T00:00:00+00:00"
                  "2024-01-01T00:00:00+00:00" None]
               "Job d added to queue in 'pending' state.");
        [simpl; lia|reflexivity].
    - apply (Queue.step_claim _
               (Queue.mk [Job.mk "d" "false" 2 "pending" 0
                            "2024-01-01T00:00:00+00:00"
                            "2024-01-01T00:00:00+00:00" None] [])
               (t0 + 1000000) [job_d_claimed] job_d_claimed).
      reflexivity. }
  assert (Worker.process_job 1000000000000 (t0 + 2000000) (t0 + 2000000)
            (t0 + 2000000) (Worker.RunRaised None) job_d_claimed
            [job_d_claimed] =
          ([job_d_claimed], failed 1 "pending" None job_d_claimed,
           Worker.Raises)) as Hproc by (vm_compute; reflexivity).
  split; [exact Hreach|]. split; [exact Hproc|].
  destruct (proj1 (job_left_by_the_exception_is_stuck 1000000000000)
              (Queue.mk [job_d_claimed] [job_d_claimed])
              (t0 + 2000000) (t0 + 2000000) (t0 + 2000000)
              (Worker.RunRaised None) job_d_claimed [] []
              [job_d_claimed] (failed 1 "pending" None job_d_claimed)
              Hreach eq_refl Hproc) as (_ & Hin & Hst & Hfree & _).
  split; [exact Hin|]. split; [exact Hst|exact Hfree].
Defined.
